(** * MK Line Length Check: a shallow embedding of [MK_Line_Length_Check_3.24.py]

    The script locates the bilingual table of a memoQ DOCX export, turns the
    inline tags of every target cell into line breaks, measures the logical
    lines and renders the segments with an overlong line into an HTML report.

    Python values are modelled as follows: a [str] is a list of Unicode code
    points, an [int] is a [Z], a list is a [list], the violation dictionaries
    (which always carry the same seven keys) are records, and a raised
    exception is the left injection of a sum. *)

From Stdlib Require Import String Ascii DecimalString.
From Stdlib Require Import ZArith NArith List Bool Lia.
Import ListNotations.
Open Scope Z_scope.

(** ** Python strings *)

Definition char := N.
Definition text := list char.

Definition ch (a : ascii) : char := N_of_ascii a.
Arguments ch a%_char.

(** [str] embeds an ASCII literal; other code points are spliced in by
    number ([dq], [LF], [CR], ...). *)
Definition str (s : string) : text := map N_of_ascii (list_ascii_of_string s).
Arguments str s%_string.

Definition LF : char := 10%N.
Definition CR : char := 13%N.
Definition dq : text := [34%N].

(** A double-quoted ASCII literal, as in [class="overflow"]. *)
Definition quoted (s : string) : text := dq ++ str s ++ dq.
Arguments quoted s%_string.

Definition len {A : Type} (l : list A) : Z := Z.of_nat (length l).

Fixpoint text_eqb (a b : text) : bool :=
  match a, b with
  | [], [] => true
  | x :: a', y :: b' => N.eqb x y && text_eqb a' b'
  | _, _ => false
  end.

Fixpoint startswith (s p : text) {struct p} : bool :=
  match p, s with
  | [], _ => true
  | y :: p', x :: s' => N.eqb x y && startswith s' p'
  | _ :: _, [] => false
  end.

Definition endswith (s p : text) : bool := startswith (rev s) (rev p).

(** [str.isspace] on one code point: the ASCII table of CPython together
    with [_PyUnicode_IsWhitespace]. *)
Definition isspace (c : char) : bool :=
  ((9 <=? c) && (c <=? 13) || (28 <=? c) && (c <=? 32)
   || (c =? 133) || (c =? 160) || (c =? 5760)
   || (8192 <=? c) && (c <=? 8202)
   || (c =? 8232) || (c =? 8233) || (c =? 8239) || (c =? 8287)
   || (c =? 12288))%N.

Fixpoint lstrip (s : text) : text :=
  match s with
  | [] => []
  | c :: s' => if isspace c then lstrip s' else s
  end.

Definition rstrip (s : text) : text := rev (lstrip (rev s)).

(** [s.strip()] *)
Definition strip (s : text) : text := rstrip (lstrip s).

(** [s.split(sep)] for a one-character separator: every occurrence cuts, so
    the result has one more piece than there are separators. *)
Fixpoint split (sep : char) (s : text) : list text :=
  match s with
  | [] => [[]]
  | c :: s' =>
      if N.eqb c sep then [] :: split sep s'
      else match split sep s' with
           | l :: ls => (c :: l) :: ls
           | [] => [[c]]
           end
  end.

(** [s.split()]: runs of whitespace separate and no piece is empty. [cur]
    holds the current piece, reversed. *)
Fixpoint split_ws_from (cur : text) (s : text) : list text :=
  match s with
  | [] => match cur with [] => [] | _ => [rev cur] end
  | c :: s' =>
      if isspace c then
        match cur with
        | [] => split_ws_from [] s'
        | _ => rev cur :: split_ws_from [] s'
        end
      else split_ws_from (c :: cur) s'
  end.

Definition split_ws (s : text) : list text := split_ws_from [] s.

(** [s.replace(old, new)] for a non-empty [old]: occurrences are taken left
    to right and do not overlap. [skip] counts the characters of the current
    occurrence that are still to be passed over. *)
Fixpoint replace_from (old new : text) (skip : nat) (s : text) : text :=
  match s with
  | [] => []
  | c :: s' =>
      match skip with
      | S k => replace_from old new k s'
      | O =>
          if startswith s old
          then new ++ replace_from old new (length old - 1) s'
          else c :: replace_from old new 0 s'
      end
  end.

Definition replace (old new s : text) : text := replace_from old new 0 s.

(** [sep.join(parts)] *)
Fixpoint join (sep : text) (parts : list text) : text :=
  match parts with
  | [] => []
  | [p] => p
  | p :: ps => p ++ sep ++ join sep ps
  end.

(** [str(n)] for an [int] *)
Definition str_of_int (n : Z) : text := str (NilZero.string_of_int (Z.to_int n)).

(** [s[:k]] and [s[k:]]: a negative bound counts from the end, and bounds
    are clipped to the sequence. *)
Definition slice_to {A : Type} (k : Z) (l : list A) : list A :=
  if 0 <=? k then firstn (Z.to_nat k) l else firstn (Z.to_nat (len l + k)) l.

Definition slice_from {A : Type} (k : Z) (l : list A) : list A :=
  if 0 <=? k then skipn (Z.to_nat k) l else skipn (Z.to_nat (len l + k)) l.

(** ** The fragment of [re] used by the script *)

Module Re.

(** A one-character class: a literal or a negated literal ([[^c]], which
    also accepts a line feed). *)
Inductive cls : Type :=
| Only (c : char)
| Except (c : char).

Definition cls_mem (k : cls) (x : char) : bool :=
  match k with
  | Only c => N.eqb x c
  | Except c => negb (N.eqb x c)
  end.

Inductive re : Type :=
| Lit (c : char)
| PlusGreedy (k : cls)
| PlusLazy (k : cls)
| Seq (a b : re)
| Alt (a b : re).

(** Backtracking matcher in continuation style: the continuation receives
    the text left after the part matched so far; the first success in
    priority order is the match. *)
Definition cont := text -> option text.

Fixpoint plus_greedy (k : cls) (s : text) (kont : cont) : option text :=
  match s with
  | [] => None
  | x :: s' =>
      if cls_mem k x then
        match plus_greedy k s' kont with
        | Some r => Some r
        | None => kont s'
        end
      else None
  end.

Fixpoint plus_lazy (k : cls) (s : text) (kont : cont) : option text :=
  match s with
  | [] => None
  | x :: s' =>
      if cls_mem k x then
        match kont s' with
        | Some r => Some r
        | None => plus_lazy k s' kont
        end
      else None
  end.

Fixpoint run (r : re) (s : text) (kont : cont) : option text :=
  match r with
  | Lit c =>
      match s with
      | x :: s' => if N.eqb x c then kont s' else None
      | [] => None
      end
  | PlusGreedy k => plus_greedy k s kont
  | PlusLazy k => plus_lazy k s kont
  | Seq a b => run a s (fun s' => run b s' kont)
  | Alt a b =>
      match run a s kont with
      | Some r => Some r
      | None => run b s kont
      end
  end.

(** A match anchored at the start of [s]; the result is the text that
    follows the match. *)
Definition match_at (r : re) (s : text) : option text := run r s Some.

(** [re.sub(r, repl, s)]: the text is scanned left to right, a match is
    replaced by [repl] and the scan resumes after it, an unmatched
    character is copied. [skip] counts the characters of the current match
    still to be passed over. A match that consumes nothing is handled as no
    match: the tag pattern never produces one. *)
Fixpoint sub_from (r : re) (repl : text) (skip : nat) (s : text) : text :=
  match s with
  | [] => []
  | c :: s' =>
      match skip with
      | S k => sub_from r repl k s'
      | O =>
          match match_at r s with
          | Some rest =>
              match (length s - length rest)%nat with
              | O => c :: sub_from r repl 0 s'
              | S k => repl ++ sub_from r repl k s'
              end
          | None => c :: sub_from r repl 0 s'
          end
      end
  end.

Definition sub (r : re) (repl : text) (s : text) : text := sub_from r repl 0 s.

End Re.

(** ** [normalize_with_linebreaks] *)

(** [(?:<[^>]+>|\[[^\]]+?\]|\{[^}]+\})] *)
Definition tag_pattern : Re.re :=
  Re.Alt
    (Re.Seq (Re.Lit (ch "<")) (Re.Seq (Re.PlusGreedy (Re.Except (ch ">"))) (Re.Lit (ch ">"))))
    (Re.Alt
       (Re.Seq (Re.Lit (ch "[")) (Re.Seq (Re.PlusLazy (Re.Except (ch "]"))) (Re.Lit (ch "]"))))
       (Re.Seq (Re.Lit (ch "{")) (Re.Seq (Re.PlusGreedy (Re.Except (ch "}"))) (Re.Lit (ch "}"))))).

Definition normalize_with_linebreaks (text0 : text) : text :=
  match text0 with
  | [] => []
  | _ =>
      let text1 := Re.sub tag_pattern [LF] text0 in
      replace [CR] [LF] (replace [CR; LF] [LF] text1)
  end.

(** ** Exceptions, results and the effects of the script *)

(** The built-in exceptions the script can meet. An [IndexError] raised by
    indexing a sequence carries a fixed message that names the kind of
    sequence and nothing about the index or the enclosing loop. *)
Inductive exn : Type :=
| IndexError
| ValueError
| EOFError.

Definition result (A : Type) : Type := (exn + A)%type.

Definition ok {A : Type} (a : A) : result A := inr a.
Definition throw {A : Type} (e : exn) : result A := inl e.

Definition rbind {A B : Type} (m : result A) (f : A -> result B) : result B :=
  match m with
  | inl e => inl e
  | inr a => f a
  end.

Declare Scope result_scope.
Delimit Scope result_scope with result.
Notation "x <- m ;; k" := (rbind m (fun x => k))
  (at level 61, m at next level, right associativity) : result_scope.

(** What the script does to the outside world, in order: the calls of
    [print], [input], [Document] and of [open] with [write], as they are
    reached. An event records that the call is reached; the calls of
    [print] and the writing of the file are taken to return. *)
Inductive event : Type :=
| Printed (line : text)
| Prompted (prompt : text)
| Loaded (path : text)
| Written (path content : text).

(** A computation with effects: the events so far and either the exception
    that ended it or its value. *)
Definition Py (A : Type) : Type := (list event * result A)%type.

Definition ret {A : Type} (a : A) : Py A := ([], inr a).
Definition raise {A : Type} (e : exn) : Py A := ([], inl e).
Definition lift {A : Type} (r : result A) : Py A := ([], r).
Definition emit (e : event) : Py unit := ([e], inr tt).
Definition print (line : text) : Py unit := emit (Printed line).

Definition bind {A B : Type} (m : Py A) (f : A -> Py B) : Py B :=
  match m with
  | (out, inl e) => (out, inl e)
  | (out, inr a) => let (out', r) := f a in (out ++ out', r)
  end.

Declare Scope py_scope.
Delimit Scope py_scope with py.
Notation "x <- m ;; k" := (bind m (fun x => k))
  (at level 61, m at next level, right associativity) : py_scope.
Notation "m ;; k" := (bind m (fun _ => k))
  (at level 61, right associativity) : py_scope.

(** [seq[i]] for an index that is not negative *)
Definition index {A : Type} (l : list A) (i : nat) : result A :=
  match nth_error l i with
  | Some a => ok a
  | None => throw IndexError
  end.

(** [max(l)]: a [ValueError] on an empty list *)
Definition py_max (l : list Z) : result Z :=
  match l with
  | [] => throw ValueError
  | x :: xs => ok (fold_left Z.max xs x)
  end.

(** [sum(l)] *)
Definition py_sum (l : list Z) : Z := fold_left Z.add l 0.

(** [x in l] and [l.index(x)] on lists of strings *)
Definition contains (x : text) (l : list text) : bool := existsb (text_eqb x) l.

Fixpoint list_index (x : text) (l : list text) : result nat :=
  match l with
  | [] => throw ValueError
  | y :: l' =>
      if text_eqb y x then ok O
      else (i <- list_index x l' ;; ok (S i))%result
  end.

(** [html.escape(s, quote=True)] *)
Definition html_escape (s : text) : text :=
  let s := replace (str "&") (str "&amp;") s in
  let s := replace (str "<") (str "&lt;") s in
  let s := replace (str ">") (str "&gt;") s in
  let s := replace dq (str "&quot;") s in
  replace (str "'") (str "&#x27;") s.

(** ** The document model of python-docx *)

Record Cell : Type := { c_text : text }.
Record Row : Type := { cells : list Cell }.
Record Table : Type := { rows : list Row }.
Record Doc : Type := { tables : list Table }.

(** ** [find_bilingual_table] *)

Definition ID : text := str "ID".

Definition stripped_cells (row : Row) : list text :=
  map (fun c => strip (c_text c)) (cells row).

(** The inner loop over [enumerate(table.rows)], from [row_index] on. *)
Fixpoint find_header_row (rs : list Row) (row_index : nat)
  : result (option (nat * nat)) :=
  match rs with
  | [] => ok None
  | row :: rest =>
      let header_cells := stripped_cells row in
      if contains ID header_cells && (3 <=? len header_cells)
      then (id_idx <- list_index ID header_cells ;;
            ok (Some (row_index, id_idx)))%result
      else find_header_row rest (S row_index)
  end.

(** The outer loop over [doc.tables]. *)
Fixpoint find_in_tables (ts : list Table) : result (option (Table * nat * nat)) :=
  match ts with
  | [] => ok None
  | table :: rest =>
      (found <- find_header_row (rows table) 0 ;;
       match found with
       | Some (row_index, id_idx) => ok (Some (table, row_index, id_idx))
       | None => find_in_tables rest
       end)%result
  end.

(** [None] stands for the triple [(None, None, None)]. *)
Definition find_bilingual_table (doc : Doc) : result (option (Table * nat * nat)) :=
  find_in_tables (tables doc).

(** ** [analyze_document] *)

Record violation : Type := {
  v_id : text;
  v_source : text;
  v_target : text;
  v_max_len : Z;
  v_segment_len : Z;
  v_line_lengths : list Z;
  v_highlighted_target_html : text
}.

Definition span_overflow_open : text :=
  str "<span class=" ++ quoted "overflow" ++ str ">".

(** The body of the loop [for line in lines]: the piece appended to
    [highlighted_lines]. *)
Definition highlighted_line (char_limit : Z) (line : text) : text :=
  match line with
  | [] => str "<br>"
  | _ =>
      let length := len line in
      if length <=? char_limit then html_escape line ++ str "<br>"
      else
        let prefix := slice_to char_limit line in
        let overflow := slice_from char_limit line in
        html_escape prefix ++ span_overflow_open ++ html_escape overflow
          ++ str "</span><br>"
  end.

Definition is_blank (l : text) : bool := text_eqb (strip l) [].

(** The body of the loop over the segment rows: [None] is [continue],
    [Some v] is the dictionary appended to [violations]. *)
Definition analyze_row (id_idx src_idx trg_idx : nat) (char_limit : Z) (row : Row)
  : result (option violation) :=
  (id_cell <- index (cells row) id_idx ;;
   let seg_id := strip (c_text id_cell) in
   src_cell <- index (cells row) src_idx ;;
   let src_text := c_text src_cell in
   trg_cell <- index (cells row) trg_idx ;;
   let trg_text_original := c_text trg_cell in
   let trg_processed := normalize_with_linebreaks trg_text_original in
   let lines := split LF trg_processed in
   let non_empty_lines := filter (fun l => negb (is_blank l)) lines in
   match non_empty_lines with
   | [] => ok None
   | _ =>
       let lengths := map len non_empty_lines in
       max_len <- py_max lengths ;;
       let segment_len := py_sum lengths in
       if max_len <=? char_limit then ok None
       else
         let highlighted_lines := map (highlighted_line char_limit) lines in
         let highlighted_target_html := join [] highlighted_lines in
         ok (Some {| v_id := seg_id;
                     v_source := src_text;
                     v_target := trg_text_original;
                     v_max_len := max_len;
                     v_segment_len := segment_len;
                     v_line_lengths := lengths;
                     v_highlighted_target_html := highlighted_target_html |})
   end)%result.

(** The loop over [table.rows[header_row_index + 1:]], with the list
    [violations] built so far. *)
Fixpoint analyze_rows (id_idx src_idx trg_idx : nat) (char_limit : Z)
  (rs : list Row) (violations : list violation) : result (list violation) :=
  match rs with
  | [] => ok violations
  | row :: rest =>
      (r <- analyze_row id_idx src_idx trg_idx char_limit row ;;
       match r with
       | None => analyze_rows id_idx src_idx trg_idx char_limit rest violations
       | Some v =>
           analyze_rows id_idx src_idx trg_idx char_limit rest (violations ++ [v])
       end)%result
  end.

Definition of_nat_str (n : nat) : text := str_of_int (Z.of_nat n).

Definition analyze_document (Document : text -> Doc) (docx_path : text)
  (char_limit : Z) : Py (list violation) :=
  (print (LF :: str "Loading DOCX document: " ++ docx_path) ;;
   emit (Loaded docx_path) ;;
   let doc := Document docx_path in
   found <- lift (find_bilingual_table doc) ;;
   match found with
   | None =>
       print (str "No table with 'ID' and at least three columns was found.") ;;
       ret []
   | Some (table, header_row_index, id_idx) =>
       print (str "Found bilingual table. Header row index: "
                ++ of_nat_str header_row_index
                ++ str ", 'ID' column index: " ++ of_nat_str id_idx) ;;
       let src_idx := (id_idx + 1)%nat in
       let trg_idx := (src_idx + 1)%nat in
       header_row <- lift (index (rows table) header_row_index) ;;
       let header_cells := stripped_cells header_row in
       if len header_cells <=? Z.of_nat trg_idx then
         print (str "Could not determine target column (not enough columns).") ;;
         ret []
       else
         violations <- lift (analyze_rows id_idx src_idx trg_idx char_limit
                               (skipn (header_row_index + 1) (rows table)) []) ;;
         print (str "Found " ++ str_of_int (len violations)
                  ++ str " segments with at least one line longer than "
                  ++ str_of_int char_limit ++ str " characters.") ;;
         ret violations
   end)%py.

(** ** [build_html_report] *)

Definition VERSION : text := str "3.23".

(** The part of [os] and [os.path] the script calls; which implementation
    is behind it depends on the platform the script runs on. *)
Record os_env : Type := {
  getcwd : text;
  listdir : text -> list text;
  path_join : text -> text -> text;
  path_isfile : text -> bool;
  path_splitext : text -> text * text;
  path_basename : text -> text
}.

(** The f-string assigned to [target_cell_html]. *)
Definition target_cell (data_original_html target_html : text) : text :=
  str "
        <div class=" ++
  quoted "target-container" ++ str " data-original-html=" ++ dq ++
  data_original_html ++ dq ++
  str ">
            <div class=" ++
  quoted "target-text" ++ str " contenteditable=" ++ quoted "false" ++
  str ">
                " ++
  target_html ++
  str "
            </div>
            <div class=" ++
  quoted "target-actions" ++
  str ">
                <button class=" ++
  quoted "icon-btn edit-btn" ++ str " title=" ++ quoted "Toggle edit" ++
  str ">" ++ [9999%N] ++ [65039%N] ++
  str "</button>
                <button class=" ++
  quoted "icon-btn reset-btn" ++ str " title=" ++
  quoted "Reset to original" ++ str ">" ++ [10226%N] ++
  str "</button>
            </div>
        </div>
        ".

(** The f-string assigned to [row]. *)
Definition table_row
  (id_html src_html target_cell_html line_length_html segment_length_html : text)
  : text :=
  str "
        <tr>
            <td class=" ++
  quoted "cell-id" ++ str ">" ++ id_html ++
  str "</td>
            <td class=" ++
  quoted "cell-source" ++ str ">" ++ src_html ++
  str "</td>
            <td class=" ++
  quoted "cell-target" ++ str ">" ++ target_cell_html ++
  str "</td>
            <td class=" ++
  quoted "cell-maxlen" ++ str ">" ++ line_length_html ++
  str "</td>
            <td class=" ++
  quoted "cell-linelens" ++ str ">" ++ segment_length_html ++
  str "</td>
        </tr>
        ".

(** The body of the loop [for v in violations]: the row appended to
    [rows_html]. The key [segment_len] is always present, so the default of
    [v.get] is not used. *)
Definition render_row (v : violation) : result text :=
  (let full_id := v_id v in
   id_short <- match full_id with
               | [] => ok []
               | _ => index (split_ws full_id) 0
               end ;;
   let id_html := html_escape id_short in
   let src_html := html_escape (v_source v) in
   let target_html := v_highlighted_target_html v in
   let data_original_html := html_escape target_html in
   let target_cell_html := target_cell data_original_html target_html in
   let line_length_html := str_of_int (v_max_len v) in
   let segment_length_html := str_of_int (v_segment_len v) in
   ok (table_row id_html src_html target_cell_html line_length_html
         segment_length_html))%result.

Fixpoint render_rows (violations : list violation) (rows_html : list text)
  : result (list text) :=
  match violations with
  | [] => ok rows_html
  | v :: rest =>
      (row <- render_row v ;; render_rows rest (rows_html ++ [row]))%result
  end.

Definition summary (total_segments char_limit : Z) : text :=
  if total_segments =? 0 then
    str "NO SEGMENTS EXCEED THE LIMIT OF " ++ str_of_int char_limit
      ++ str " CHARACTERS PER LINE."
  else
    str "Found " ++ str_of_int total_segments
      ++ str " segments with at least one line longer than "
      ++ str_of_int char_limit ++ str " characters.".

(** The page template, cut at its [<style>] and [<script>] elements. *)
Definition page_head (char_limit : Z) : text :=
  str "<!DOCTYPE html>
<html lang=" ++
  quoted "en" ++
  str ">
<head>
<meta charset=" ++
  quoted "UTF-8" ++
  str ">
<title>MK Line Length Check - limit " ++
  str_of_int char_limit ++
  str "</title>
<style>".

Definition page_style : text :=
  str "
    body {
        margin: 0;
        padding: 0;
        font-family: system-ui, -apple-system, BlinkMacSystemFont, " ++
  quoted "Segoe UI" ++
  str ", sans-serif;
        background-color: #050608;
        color: #f5f5f5;
    }
    header {
        padding: 20px 32px;
        background: linear-gradient(135deg, #10131a, #151a24);
        border-bottom: 1px solid #262b36;
    }
    h1 {
        margin: 0 0 4px 0;
        font-size: 22px;
        letter-spacing: 0.03em;
    }
    .version-pill {
        display: inline-block;
        margin-left: 8px;
        padding: 2px 8px;
        border-radius: 999px;
        background: #1f2937;
        color: #cbd5f5;
        font-size: 11px;
        text-transform: uppercase;
        letter-spacing: 0.08em;
    }
    .subheader {
        font-size: 13px;
        color: #9aa0b5;
    }
    main {
        padding: 16px 32px 32px 32px;
    }
    .summary {
        margin-bottom: 16px;
        font-size: 14px;
        font-weight: 600;
        color: #e5e7eb;
    }
    .table-wrapper {
        border-radius: 16px;
        border: 1px solid #1f2933;
        background: radial-gradient(circle at top left, #111827 0, #020617 45%);
        box-shadow: 0 14px 40px rgba(0,0,0,0.8);
        overflow: hidden;
    }
    table {
        width: 100%;
        border-collapse: collapse;
        font-size: 13px;
    }
    thead {
        background: linear-gradient(90deg, #111827, #020617);
    }
    th, td {
        padding: 8px 10px;
        border-bottom: 1px solid #111827;
        vertical-align: top;
    }
    th {
        text-align: left;
        font-weight: 600;
        color: #9ca3af;
        font-size: 12px;
        text-transform: uppercase;
        letter-spacing: 0.08em;
        white-space: nowrap;
    }
    tbody tr:nth-child(even) {
        background-color: rgba(15,23,42,0.7);
    }
    tbody tr:nth-child(odd) {
        background-color: rgba(3,7,18,0.9);
    }
    tbody tr:hover {
        background-color: rgba(55,65,81,0.8);
    }
    .cell-id {
        width: 60px;
        font-weight: 600;
        color: #e5e7eb;
        white-space: nowrap;
    }
    .cell-source {
        width: 30%;
        color: #d1d5db;
    }
    .cell-target {
        width: 40%;
        color: #f9fafb;
    }
    .cell-maxlen {
        width: 90px;
        text-align: right;
        font-variant-numeric: tabular-nums;
        color: #f97316;
        font-weight: 600;
    }
    .cell-linelens {
        width: 110px;
        text-align: right;
        font-variant-numeric: tabular-nums;
        color: #9ca3af;
    }
    .overflow {
        background-color: #ffff00;
        color: #000;
        font-weight: 600;
        padding: 0 1px;
    }
    .footer-note {
        margin-top: 18px;
        font-size: 11px;
        color: #6b7280;
    }
    .target-container {
        position: relative;
    }
    .target-text[contenteditable=" ++
  quoted "true" ++
  str "] {
        outline: 1px dashed #6ec1ff;
        outline-offset: 2px;
        background-color: rgba(15, 23, 42, 0.6);
    }
    .target-actions {
        margin-top: 6px;
        display: flex;
        gap: 4px;
        font-size: 11px;
    }
    .icon-btn {
        border: 1px solid #374151;
        background-color: #111827;
        color: #e5e7eb;
        border-radius: 999px;
        padding: 2px 6px;
        cursor: pointer;
        font-size: 11px;
        line-height: 1;
    }
    .icon-btn:hover {
        background-color: #1f2937;
    }
".

Definition page_script : text :=
  str "
document.addEventListener('click', function(event) {
    const editBtn = event.target.closest('.edit-btn');
    const resetBtn = event.target.closest('.reset-btn');

    if (editBtn) {
        const container = editBtn.closest('.target-container');
        if (!container) return;
        const textDiv = container.querySelector('.target-text');
        if (!textDiv) return;

        const isEditable = textDiv.getAttribute('contenteditable') === 'true';
        if (isEditable) {
            textDiv.setAttribute('contenteditable', 'false');
        } else {
            textDiv.setAttribute('contenteditable', 'true');
            textDiv.focus();
        }
    }

    if (resetBtn) {
        const container = resetBtn.closest('.target-container');
        if (!container) return;
        const textDiv = container.querySelector('.target-text');
        if (!textDiv) return;

        const originalHtml = container.getAttribute('data-original-html');
        if (originalHtml != null) {
            textDiv.innerHTML = originalHtml;
        }
        textDiv.setAttribute('contenteditable', 'false');
    }
});
".

(** The body of the page, cut around the summary and the rows. *)
Definition page_header (char_limit : Z) (escaped_filename : text) : text :=
  str "</script>
</head>
<body>
<header>
    <div>
        <h1>MK Line Length Check<span class=" ++
  quoted "version-pill" ++ str ">v" ++ VERSION ++
  str "</span></h1>
        <div class=" ++
  quoted "subheader" ++
  str ">
            Source file: <strong>" ++
  escaped_filename ++ str "</strong> " ++ [183%N] ++
  str "
            Limit per line: <strong>" ++
  str_of_int char_limit ++
  str " characters</strong>
        </div>
    </div>
</header>
<main>
    <div class=" ++
  quoted "summary" ++
  str ">
        ".

Definition page_table_open : text :=
  str "
    </div>

    <div class=" ++
  quoted "table-wrapper" ++
  str ">
        <table id=" ++
  quoted "resultsTable" ++
  str ">
            <thead>
                <tr>
                    <th>ID</th>
                    <th>Source</th>
                    <th>Target (overflow highlighted)</th>
                    <th>Line length</th>
                    <th>Segment length</th>
                </tr>
            </thead>
            <tbody>
                ".

Definition page_footer : text :=
  str "
            </tbody>
        </table>
    </div>

    <div class=" ++
  quoted "footer-note" ++
  str ">
        Overflow characters beyond the configured limit are highlighted in yellow.
    </div>
</main>
</body>
</html>
".

Definition page_body (char_limit : Z) (escaped_filename summary_text rows_block : text)
  : text :=
  page_header char_limit escaped_filename
    ++ str "<strong>" ++ summary_text ++ str "</strong>"
    ++ page_table_open ++ rows_block ++ page_footer.

Definition html_page (char_limit : Z) (escaped_filename summary_text rows_block : text)
  : text :=
  page_head char_limit ++ page_style ++
  str "</style>
<script>" ++
  page_script ++ page_body char_limit escaped_filename summary_text rows_block.

Definition build_html_report (os : os_env) (violations : list violation)
  (output_path : text) (char_limit : Z) (source_filename : text) : Py unit :=
  (let escaped_filename := html_escape (path_basename os source_filename) in
   let total_segments := len violations in
   let summary_text := summary total_segments char_limit in
   rows_html <- lift (render_rows violations []) ;;
   let rows_block := join [LF] rows_html in
   let html_content := html_page char_limit escaped_filename summary_text rows_block in
   emit (Written output_path html_content) ;;
   print (str "HTML report written to: " ++ output_path))%py.

(** ** [main] *)

(** [c.lower()] on ASCII letters. The script lower-cases only to compare
    with the ASCII suffixes [.docx], [.rtf] and [.rtx], where this agrees
    with [str.lower]. *)
Definition lower_char (c : char) : char :=
  if ((65 <=? c) && (c <=? 90))%N then (c + 32)%N else c.

Definition lower (s : text) : text := map lower_char s.

Definition digit_of (c : char) : option Z :=
  if ((48 <=? c) && (c <=? 57))%N then Some (Z.of_N c - 48) else None.

(** The digits of an integer literal: single underscores may separate
    digits. [after_digit] tells whether the previous character was one. *)
Fixpoint parse_digits (acc : Z) (after_digit : bool) (s : text) : option Z :=
  match s with
  | [] => if after_digit then Some acc else None
  | c :: s' =>
      match digit_of c with
      | Some d => parse_digits (10 * acc + d) true s'
      | None =>
          if N.eqb c (ch "_") && after_digit then parse_digits acc false s'
          else None
      end
  end.

(** Decimal literals in ASCII, as [int(s)] reads them: surrounding
    whitespace and one sign are accepted, anything else is a [ValueError].
    The built-in accepts more than this (decimal digits of every script)
    and, in recent interpreters, refuses literals of more than 4300 digits;
    so [main] below takes [int] from the [world], and [py_int] serves as the
    [int] of the sample world, on lines of a few ASCII characters. *)
Definition py_int (s : text) : result Z :=
  let digits_of (t : text) : result Z :=
    match parse_digits 0 false t with
    | Some n => ok n
    | None => throw ValueError
    end in
  match strip s with
  | c :: t =>
      if N.eqb c (ch "-") then (n <- digits_of t ;; ok (- n))%result
      else if N.eqb c (ch "+") then digits_of t
      else digits_of (c :: t)
  | [] => throw ValueError
  end.

(** What [main] finds around it: the outcome of the dependency check (the
    lines it printed and the [Document] callable, or the exception it
    re-raised), the file system as [os] shows it, the line read by
    [input] ([None] at end of input), and the built-in [int] of the
    interpreter applied to a string. *)
Record world : Type := {
  python_docx : list text * result (text -> Doc);
  os : os_env;
  stdin_line : option text;
  builtin_int : text -> result Z
}.

Definition ensure_python_docx (w : world) : Py (text -> Doc) :=
  (map Printed (fst (python_docx w)), snd (python_docx w)).

Definition limit_prompt : text := str "Enter character limit per line: ".

Definition input (w : world) (prompt : text) : Py text :=
  (emit (Prompted prompt) ;;
   match stdin_line w with
   | Some l => ret l
   | None => raise EOFError
   end)%py.

Definition main (w : world) : Py unit :=
  (print (str "=== memoQ Line Length Checker - v" ++ VERSION
            ++ str " (DOCX + HTML) ===") ;;
   Document <- ensure_python_docx w ;;
   let current_dir := getcwd (os w) in
   let files := listdir (os w) current_dir in
   let docx_files := filter (fun f => endswith (lower f) (str ".docx")) files in
   let rtf_like_files :=
     filter (fun f => endswith (lower f) (str ".rtf")
                      || endswith (lower f) (str ".rtx")) files in
   match
     match docx_files, rtf_like_files with
     | f :: _, _ => Some f
     | [], f :: _ => Some f
     | [], [] => None
     end
   with
   | None =>
       print (str "Error: no DOCX or RTF/RTX file found in the current folder.")
   | Some chosen_file =>
       let input_path := path_join (os w) current_dir chosen_file in
       print (str "Detected file in current folder: " ++ input_path) ;;
       if negb (path_isfile (os w) input_path) then
         print (str "Error: detected file does not exist. Please check the folder.")
       else
         let ext := lower (snd (path_splitext (os w) input_path)) in
         if negb (text_eqb ext (str ".docx")) then
           print (str "Error: this version works with DOCX only. Please export a bilingual DOCX from memoQ.")
         else
           line <- input w limit_prompt ;;
           let limit_str := strip line in
           match builtin_int w limit_str with
           | inl ValueError =>
               print (str "Error: character limit must be an integer.")
           | inl e => raise e
           | inr char_limit =>
               violations <- analyze_document Document input_path char_limit ;;
               let base := fst (path_splitext (os w) input_path) in
               let output_path :=
                 base ++ str "_length_report_" ++ str_of_int char_limit
                   ++ str ".html" in
               build_html_report (os w) violations output_path char_limit input_path
           end
   end)%py.

(** ** The click handler of the report page

    The script element of the page registers one handler. For a click on an
    edit button it flips [contenteditable] of the target text of the
    enclosing container; for a click on a reset button it assigns the value
    of the attribute [data-original-html] to [innerHTML] of the target text
    and switches editing off. *)

Record container : Type := {
  data_original_html_attr : option text;
  inner_html : text;
  contenteditable : bool
}.

Definition click_edit (c : container) : container :=
  let isEditable := contenteditable c in
  if isEditable
  then {| data_original_html_attr := data_original_html_attr c;
          inner_html := inner_html c;
          contenteditable := false |}
  else {| data_original_html_attr := data_original_html_attr c;
          inner_html := inner_html c;
          contenteditable := true |}.

Definition click_reset (c : container) : container :=
  let originalHtml := data_original_html_attr c in
  {| data_original_html_attr := data_original_html_attr c;
     inner_html := match originalHtml with
                   | Some h => h
                   | None => inner_html c
                   end;
     contenteditable := false |}.

(** Modelled from the HTML standard, not from the script: the value of an
    attribute is read with its character references decoded. Only the five
    references that [html.escape] writes are decoded; [skip] counts the
    characters of the current reference still to be passed over. *)
Definition references : list (text * char) :=
  [(str "&amp;", ch "&"); (str "&lt;", ch "<"); (str "&gt;", ch ">");
   (str "&quot;", 34%N); (str "&#x27;", ch "'")].

Fixpoint decode_from (skip : nat) (s : text) : text :=
  match s with
  | [] => []
  | c :: s' =>
      match skip with
      | S k => decode_from k s'
      | O =>
          match find (fun r => startswith s (fst r)) references with
          | Some (name, x) => x :: decode_from (length name - 1) s'
          | None => c :: decode_from 0 s'
          end
      end
  end.

Definition attribute_value (written : text) : text := decode_from 0 written.

(** What follows the first occurrence of [pattern] in [s]. *)
Fixpoint text_after (pattern s : text) {struct s} : option text :=
  if startswith s pattern then Some (skipn (length pattern) s)
  else match s with
       | [] => None
       | _ :: s' => text_after pattern s'
       end.

(** The characters of [s] before the first [c]. *)
Fixpoint text_before (c : char) (s : text) : text :=
  match s with
  | [] => []
  | x :: s' => if N.eqb x c then [] else x :: text_before c s'
  end.

(** Modelled from the HTML standard as well: the attribute
    [data-original-html] that the browser gives the first element of a
    markup whose tag opens with [container_tag], the text that
    [target_cell] writes up to the quotation mark that opens the value: the
    value runs up to the next quotation mark and is decoded. *)
Definition container_tag : text :=
  str "<div class=" ++ quoted "target-container" ++ str " data-original-html="
    ++ dq.

Definition data_original_html_of (markup : text) : option text :=
  match text_after container_tag markup with
  | Some written => Some (attribute_value (text_before 34%N written))
  | None => None
  end.

(** ** The script of the page as a program

    The click handler in the fragment of JavaScript it is written in:
    [Js.handler] is its syntax tree and [Js.print] gives the text of a tree,
    so that the tree can be compared with [page_script]. [Js.click] runs the
    tree on the elements of one target cell, as [target_cell] lays them
    out: the container holds the target text and the actions, and the
    actions hold the two buttons. The DOM calls are modelled from the DOM
    standard for these elements; a call outside this model gives [None]. *)
Module Js.

Inductive expr : Type :=
| Var (x : string)
| Lit (s : string)
| Null
| Member (e : expr) (name : string)
| Call (e : expr) (method : string) (args : list string)
| Not (e : expr)
| StrictEq (a b : expr)
| NotEq (a b : expr).

#[local] Unset Elimination Schemes.

Inductive stmt : Type :=
| Const (x : string) (e : expr)
| If (c : expr) (yes : list stmt) (no : option (list stmt))
| IfReturn (c : expr)
| Do (e : expr)
| Assign (e : expr) (name : string) (value : expr)
| Blank.

#[local] Set Elimination Schemes.

Record listener : Type := {
  event_name : string;
  parameter : string;
  body : list stmt
}.

(** *** The text of a program *)

Definition apostrophe : text := [39%N].

Definition print_args (args : list string) : text :=
  join (str ", ") (map (fun a => apostrophe ++ str a ++ apostrophe) args).

Fixpoint print_expr (e : expr) : text :=
  match e with
  | Var x => str x
  | Lit s => apostrophe ++ str s ++ apostrophe
  | Null => str "null"
  | Member e' name => print_expr e' ++ str "." ++ str name
  | Call e' method args =>
      print_expr e' ++ str "." ++ str method ++ str "(" ++ print_args args
        ++ str ")"
  | Not e' => str "!" ++ print_expr e'
  | StrictEq a b => print_expr a ++ str " === " ++ print_expr b
  | NotEq a b => print_expr a ++ str " != " ++ print_expr b
  end.

Definition indent (depth : nat) : text := concat (repeat (str "    ") depth).

Fixpoint print_stmt (depth : nat) (s : stmt) {struct s} : text :=
  let print_inner :=
    fix go (l : list stmt) : text :=
      match l with
      | [] => []
      | s' :: l' => print_stmt (S depth) s' ++ go l'
      end in
  match s with
  | Const x e =>
      indent depth ++ str "const " ++ str x ++ str " = " ++ print_expr e
        ++ str ";" ++ [LF]
  | If c yes no =>
      indent depth ++ str "if (" ++ print_expr c ++ str ") {" ++ [LF]
        ++ print_inner yes
        ++ match no with
           | None => []
           | Some no' =>
               indent depth ++ str "} else {" ++ [LF] ++ print_inner no'
           end
        ++ indent depth ++ str "}" ++ [LF]
  | IfReturn c =>
      indent depth ++ str "if (" ++ print_expr c ++ str ") return;" ++ [LF]
  | Do e => indent depth ++ print_expr e ++ str ";" ++ [LF]
  | Assign e name value =>
      indent depth ++ print_expr e ++ str "." ++ str name ++ str " = "
        ++ print_expr value ++ str ";" ++ [LF]
  | Blank => [LF]
  end.

Definition print_block (depth : nat) (l : list stmt) : text :=
  concat (map (print_stmt depth) l).

(** The content of the script element: the registration of the listener on
    the document. *)
Definition print (l : listener) : text :=
  [LF] ++ str "document.addEventListener(" ++ apostrophe ++ str (event_name l)
    ++ apostrophe ++ str ", function(" ++ str (parameter l) ++ str ") {"
    ++ [LF] ++ print_block 1 (body l) ++ str "});" ++ [LF].

(** *** The handler *)

Definition enclosing_text (button : string) : list stmt :=
  [Const "container" (Call (Var button) "closest" [".target-container"%string]);
   IfReturn (Not (Var "container"));
   Const "textDiv"
     (Call (Var "container") "querySelector" [".target-text"%string]);
   IfReturn (Not (Var "textDiv"));
   Blank].

Definition set_editable (value : string) : stmt :=
  Do (Call (Var "textDiv") "setAttribute" ["contenteditable"%string; value]).

Definition handler : listener :=
  {| event_name := "click";
     parameter := "event";
     body :=
       [Const "editBtn"
          (Call (Member (Var "event") "target") "closest" [".edit-btn"%string]);
        Const "resetBtn"
          (Call (Member (Var "event") "target") "closest" [".reset-btn"%string]);
        Blank;
        If (Var "editBtn")
          (enclosing_text "editBtn" ++
           [Const "isEditable"
              (StrictEq
                 (Call (Var "textDiv") "getAttribute" ["contenteditable"%string])
                 (Lit "true"));
            If (Var "isEditable")
              [set_editable "false"]
              (Some [set_editable "true";
                     Do (Call (Var "textDiv") "focus" [])])])
          None;
        Blank;
        If (Var "resetBtn")
          (enclosing_text "resetBtn" ++
           [Const "originalHtml"
              (Call (Var "container") "getAttribute"
                 ["data-original-html"%string]);
            If (NotEq (Var "originalHtml") Null)
              [Assign (Var "textDiv") "innerHTML" (Var "originalHtml")]
              None;
            set_editable "false"])
          None] |}.

(** *** The elements of one target cell *)

(** [TargetText] stands for the target text and for what it holds;
    [Elsewhere] for every element of the page outside the container. *)
Inductive node : Type :=
| EditButton
| ResetButton
| TargetActions
| TargetText
| TargetContainer
| Elsewhere.

Definition classes (n : node) : list string :=
  match n with
  | EditButton => ["icon-btn"; "edit-btn"]%string
  | ResetButton => ["icon-btn"; "reset-btn"]%string
  | TargetActions => ["target-actions"%string]
  | TargetText => ["target-text"%string]
  | TargetContainer => ["target-container"%string]
  | Elsewhere => []
  end.

(** The element and its ancestors, innermost first. *)
Definition inclusive_ancestors (n : node) : list node :=
  match n with
  | EditButton => [EditButton; TargetActions; TargetContainer]
  | ResetButton => [ResetButton; TargetActions; TargetContainer]
  | TargetActions => [TargetActions; TargetContainer]
  | TargetText => [TargetText; TargetContainer]
  | TargetContainer => [TargetContainer]
  | Elsewhere => []
  end.

(** The descendants in document order. *)
Definition descendants (n : node) : list node :=
  match n with
  | TargetContainer => [TargetText; TargetActions; EditButton; ResetButton]
  | TargetActions => [EditButton; ResetButton]
  | _ => []
  end.

(** A class selector [.name]. *)
Definition selects (selector : text) (n : node) : bool :=
  existsb (fun c => text_eqb selector (str "." ++ str c)) (classes n).

(** *** Running a program *)

Inductive value : Type :=
| VNull
| VString (s : text)
| VBool (b : bool)
| VNode (n : node)
| VEvent.

Definition truthy (v : value) : bool :=
  match v with
  | VNull => false
  | VString s => negb (text_eqb s [])
  | VBool b => b
  | VNode _ | VEvent => true
  end.

Definition of_node (found : option node) : value :=
  match found with
  | Some n => VNode n
  | None => VNull
  end.

Definition env : Type := list (string * value).

Definition lookup (x : string) (e : env) : option value :=
  match find (fun b => String.eqb (fst b) x) e with
  | Some b => Some (snd b)
  | None => None
  end.

Definition get_attribute (n : node) (name : text) (st : container)
  : option value :=
  match n with
  | TargetText =>
      if text_eqb name (str "contenteditable")
      then Some (VString (if contenteditable st then str "true"
                          else str "false"))
      else None
  | TargetContainer =>
      if text_eqb name (str "data-original-html")
      then Some (match data_original_html_attr st with
                 | Some h => VString h
                 | None => VNull
                 end)
      else None
  | _ => None
  end.

Definition set_attribute (n : node) (name new_value : text) (st : container)
  : option container :=
  match n with
  | TargetText =>
      if text_eqb name (str "contenteditable")
      then Some {| data_original_html_attr := data_original_html_attr st;
                   inner_html := inner_html st;
                   contenteditable := text_eqb new_value (str "true") |}
      else None
  | _ => None
  end.

Definition call (receiver : value) (method : string) (args : list text)
  (st : container) : option (value * container) :=
  match receiver with
  | VNode n =>
      match args with
      | [] => if String.eqb method "focus" then Some (VNull, st) else None
      | [a] =>
          if String.eqb method "closest"
          then Some (of_node (find (selects a) (inclusive_ancestors n)), st)
          else if String.eqb method "querySelector"
          then Some (of_node (find (selects a) (descendants n)), st)
          else if String.eqb method "getAttribute"
          then match get_attribute n a st with
               | Some v => Some (v, st)
               | None => None
               end
          else None
      | [a; b] =>
          if String.eqb method "setAttribute"
          then match set_attribute n a b st with
               | Some st' => Some (VNull, st')
               | None => None
               end
          else None
      | _ => None
      end
  | _ => None
  end.

Definition strict_eq (a b : value) : option bool :=
  match a, b with
  | VNull, VNull => Some true
  | VString x, VString y => Some (text_eqb x y)
  | VNull, VString _ | VString _, VNull => Some false
  | _, _ => None
  end.

(** [target] is the element the click landed on. *)
Fixpoint eval (target : node) (e : env) (st : container) (x : expr)
  : option (value * container) :=
  match x with
  | Var name =>
      match lookup name e with
      | Some v => Some (v, st)
      | None => None
      end
  | Lit s => Some (VString (str s), st)
  | Null => Some (VNull, st)
  | Member x' name =>
      match eval target e st x' with
      | Some (VEvent, st') =>
          if String.eqb name "target" then Some (VNode target, st') else None
      | _ => None
      end
  | Call x' method args =>
      match eval target e st x' with
      | Some (receiver, st') => call receiver method (map str args) st'
      | None => None
      end
  | Not x' =>
      match eval target e st x' with
      | Some (v, st') => Some (VBool (negb (truthy v)), st')
      | None => None
      end
  | StrictEq a b =>
      match eval target e st a with
      | Some (va, st1) =>
          match eval target e st1 b with
          | Some (vb, st2) =>
              match strict_eq va vb with
              | Some r => Some (VBool r, st2)
              | None => None
              end
          | None => None
          end
      | None => None
      end
  | NotEq a b =>
      match eval target e st a with
      | Some (va, st1) =>
          match eval target e st1 b with
          | Some (vb, st2) =>
              match strict_eq va vb with
              | Some r => Some (VBool (negb r), st2)
              | None => None
              end
          | None => None
          end
      | None => None
      end
  end.

Definition set_property (receiver : value) (name : string) (v : value)
  (st : container) : option container :=
  match receiver, v with
  | VNode TargetText, VString h =>
      if String.eqb name "innerHTML"
      then Some {| data_original_html_attr := data_original_html_attr st;
                   inner_html := h;
                   contenteditable := contenteditable st |}
      else None
  | _, _ => None
  end.

(** A statement goes on with the next one or leaves the function. *)
Inductive outcome : Type :=
| Next (e : env) (st : container)
| Return (st : container).

Fixpoint exec (target : node) (s : stmt) (e : env) (st : container)
  {struct s} : option outcome :=
  let exec_inner :=
    fix go (l : list stmt) (e' : env) (st' : container) : option outcome :=
      match l with
      | [] => Some (Next e' st')
      | s' :: l' =>
          match exec target s' e' st' with
          | Some (Next e'' st'') => go l' e'' st''
          | r => r
          end
      end in
  let leave_block (r : option outcome) : option outcome :=
    match r with
    | Some (Next _ st') => Some (Next e st')
    | _ => r
    end in
  match s with
  | Const x v =>
      match eval target e st v with
      | Some (val, st') => Some (Next ((x, val) :: e) st')
      | None => None
      end
  | If c yes no =>
      match eval target e st c with
      | Some (val, st') =>
          if truthy val then leave_block (exec_inner yes e st')
          else match no with
               | Some no' => leave_block (exec_inner no' e st')
               | None => Some (Next e st')
               end
      | None => None
      end
  | IfReturn c =>
      match eval target e st c with
      | Some (val, st') =>
          if truthy val then Some (Return st') else Some (Next e st')
      | None => None
      end
  | Do x =>
      match eval target e st x with
      | Some (_, st') => Some (Next e st')
      | None => None
      end
  | Assign x name v =>
      match eval target e st x with
      | Some (receiver, st1) =>
          match eval target e st1 v with
          | Some (val, st2) =>
              match set_property receiver name val st2 with
              | Some st3 => Some (Next e st3)
              | None => None
              end
          | None => None
          end
      | None => None
      end
  | Blank => Some (Next e st)
  end.

Fixpoint exec_block (target : node) (l : list stmt) (e : env) (st : container)
  : option outcome :=
  match l with
  | [] => Some (Next e st)
  | s :: l' =>
      match exec target s e st with
      | Some (Next e' st') => exec_block target l' e' st'
      | r => r
      end
  end.

(** A click on [target]: the body of the listener runs with the event for
    its parameter. *)
Definition click (l : listener) (target : node) (st : container)
  : option container :=
  match exec_block target (body l) [(parameter l, VEvent)] st with
  | Some (Next _ st') | Some (Return st') => Some st'
  | None => None
  end.

End Js.

(** What a reviewer can do to one target cell: click somewhere on the page,
    which runs the handler, and type into the target text while it is
    editable. *)
Inductive gesture : Type :=
| Click (target : Js.node)
| Typing (new_content : text).

Definition perform (c : container) (g : gesture) : option container :=
  match g with
  | Click target => Js.click Js.handler target c
  | Typing new_content =>
      Some (if contenteditable c
            then {| data_original_html_attr := data_original_html_attr c;
                    inner_html := new_content;
                    contenteditable := true |}
            else c)
  end.

Fixpoint perform_all (gestures : list gesture) (c : container)
  : option container :=
  match gestures with
  | [] => Some c
  | g :: rest =>
      match perform c g with
      | Some c' => perform_all rest c'
      | None => None
      end
  end.

(** ** Notions used to state the properties *)

(** The two steps of [normalize_with_linebreaks] after the tags are gone. *)
Definition normalize_line_endings (s : text) : text :=
  replace [CR] [LF] (replace [CR; LF] [LF] s).

(** A tag span: an opening delimiter, a non-empty body free of the closing
    delimiter, and the closing delimiter. *)
Definition delimiters : list (char * char) :=
  [(ch "<", ch ">"); (ch "[", ch "]"); (ch "{", ch "}")].

Inductive tag : text -> Prop :=
| tag_span (o c : char) (body : text) :
    In (o, c) delimiters -> body <> [] -> ~ In c body ->
    tag (o :: body ++ [c]).

Definition opens_tag (x : char) : bool :=
  N.eqb x (ch "<") || N.eqb x (ch "[") || N.eqb x (ch "{").

(** A text made of complete tag spans and of characters that do not open a
    tag. *)
Inductive settled : text -> Prop :=
| settled_nil : settled []
| settled_char (x : char) (s : text) :
    opens_tag x = false -> settled s -> settled (x :: s)
| settled_tag (t s : text) : tag t -> settled s -> settled (t ++ s).

(** A text made of tag spans and whitespace only. *)
Inductive tags_and_whitespace : text -> Prop :=
| tw_nil : tags_and_whitespace []
| tw_space (x : char) (s : text) :
    isspace x = true -> tags_and_whitespace s -> tags_and_whitespace (x :: s)
| tw_tag (t s : text) :
    tag t -> tags_and_whitespace s -> tags_and_whitespace (t ++ s).

(** The first step of [normalize_with_linebreaks] in the words of its
    contract: reading from the left, a tag span that starts at the current
    position becomes one line feed and the reading goes on after the span;
    where no tag span starts, the character is copied. *)
Inductive tags_replaced : text -> text -> Prop :=
| tags_replaced_nil : tags_replaced [] []
| tags_replaced_tag (t rest out : text) :
    tag t -> tags_replaced rest out ->
    tags_replaced (t ++ rest) (LF :: out)
| tags_replaced_char (x : char) (rest out : text) :
    (forall t r, tag t -> x :: rest <> t ++ r) ->
    tags_replaced rest out ->
    tags_replaced (x :: rest) (x :: out).

(** The second step in the words of its contract, as one pass: a carriage
    return together with the line feed after it is one line feed, any other
    carriage return is one line feed, every other character is kept. *)
Fixpoint uniform_line_endings (s : text) : text :=
  match s with
  | [] => []
  | x :: s' =>
      if N.eqb x CR then
        LF :: match s' with
              | y :: s'' =>
                  if N.eqb y LF then uniform_line_endings s''
                  else uniform_line_endings s'
              | [] => []
              end
      else x :: uniform_line_endings s'
  end.

(** A text without tag openers and without line endings. *)
Definition plain (s : text) : bool :=
  forallb (fun x => negb (opens_tag x || N.eqb x LF || N.eqb x CR)) s.

(** The logical lines of a target text, and those that are not blank: the
    lines the analyzer measures. *)
Definition logical_lines (target : text) : list text :=
  split LF (normalize_with_linebreaks target).

Definition counted_lines (target : text) : list text :=
  filter (fun l => negb (is_blank l)) (logical_lines target).


(** What the analysis of one row with target text [target] has to be:
    a record is emitted exactly when the lengths of the counted lines have
    a maximum above the limit, and the record holds these lengths, their
    sum and their maximum. *)
Definition row_outcome (char_limit : Z) (target : text) (r : option violation)
  : Prop :=
  let lengths := map len (counted_lines target) in
  ((exists v, r = Some v) <->
   (counted_lines target <> [] /\
    exists m, In m lengths /\ Forall (fun n => n <= m) lengths /\ char_limit < m))
  /\ (forall v, r = Some v ->
        v_target v = target
        /\ v_line_lengths v = lengths
        /\ v_segment_len v = fold_right Z.add 0 lengths
        /\ In (v_max_len v) lengths
        /\ Forall (fun n => n <= v_max_len v) lengths)
  /\ (tags_and_whitespace target -> r = None).


(** Escaping, character by character. *)
Definition escape_char (x : char) : text :=
  if N.eqb x (ch "&") then str "&amp;"
  else if N.eqb x (ch "<") then str "&lt;"
  else if N.eqb x (ch ">") then str "&gt;"
  else if N.eqb x 34%N then str "&quot;"
  else if N.eqb x (ch "'") then str "&#x27;"
  else [x].

(** A row that qualifies as header: the text of one of its cells, once
    trimmed, is [ID], and the row has at least three cells. *)
Definition header_like (row : Row) : Prop :=
  (exists c, In c (cells row) /\ strip (c_text c) = ID)
  /\ (3 <= length (cells row))%nat.

(** The position the locator reports: the first cell of the row whose
    trimmed text is [ID]. *)
Definition first_id_cell (row : Row) (id_idx : nat) : Prop :=
  (exists c, nth_error (cells row) id_idx = Some c /\ strip (c_text c) = ID)
  /\ (forall j c, (j < id_idx)%nat -> nth_error (cells row) j = Some c ->
                  strip (c_text c) <> ID).

(** What the scan of the rows of one table returns. *)
Definition header_row_found (rs : list Row) (k : nat)
  (found : result (option (nat * nat))) : Prop :=
  match found with
  | inl _ => False
  | inr None => forall r, In r rs -> ~ header_like r
  | inr (Some (row_index, id_idx)) =>
      exists i row,
        row_index = (k + i)%nat
        /\ nth_error rs i = Some row
        /\ header_like row
        /\ (forall r, In r (firstn i rs) -> ~ header_like r)
        /\ first_id_cell row id_idx
  end.

(** What the scan of the tables returns. *)
Definition table_found (ts : list Table)
  (found : result (option (Table * nat * nat))) : Prop :=
  match found with
  | inl _ => False
  | inr None => forall t r, In t ts -> In r (rows t) -> ~ header_like r
  | inr (Some (table, row_index, id_idx)) =>
      exists before after row,
        ts = before ++ table :: after
        /\ (forall t r, In t before -> In r (rows t) -> ~ header_like r)
        /\ nth_error (rows table) row_index = Some row
        /\ header_like row
        /\ (forall r, In r (firstn row_index (rows table)) -> ~ header_like r)
        /\ first_id_cell row id_idx
  end.

(** The events that show an analysis or a report. *)
Definition is_work (e : event) : bool :=
  match e with
  | Loaded _ | Written _ _ => true
  | Printed _ | Prompted _ => false
  end.

Definition writes_to (path : text) (e : event) : bool :=
  match e with
  | Written p _ => text_eqb p path
  | _ => false
  end.

(** What [main] does once the limit is read as [char_limit]. *)
Definition run_with_limit (os : os_env) (Document : text -> Doc)
  (input_path : text) (char_limit : Z) : Py unit :=
  (violations <- analyze_document Document input_path char_limit ;;
   build_html_report os violations
     (fst (path_splitext os input_path) ++ str "_length_report_"
        ++ str_of_int char_limit ++ str ".html")
     char_limit input_path)%py.

(** [differs s p]: [s] and [p] disagree at a position that both have. *)
Fixpoint differs (s p : text) : bool :=
  match p, s with
  | y :: p', x :: s' => if N.eqb x y then differs s' p' else true
  | _, _ => false
  end.

(** No occurrence of [p] starts inside [s], whatever follows [s]. *)
Fixpoint starts_nowhere (p s : text) : bool :=
  match s with
  | [] => true
  | _ :: s' => differs s p && starts_nowhere p s'
  end.

(** The reset button as [target_cell] writes it. *)
Definition reset_button : text :=
  str "<button class=" ++ quoted "icon-btn reset-btn" ++ str " title=" ++
  quoted "Reset to original" ++ str ">" ++ [10226%N] ++ str "</button>".

(** What holds for one record and its row of the report: the row holds the
    target cell with the hidden copy and the reset button; the browser
    reads the rendering back from the row; and on every container whose
    attribute is the one read from the row, whatever its text and its
    editing state, the gestures run, and a click on the reset button after
    them puts the rendering into the text and switches editing off. *)
Definition hidden_copy_restores (gestures : list gesture) (v : violation)
  (row : text) : Prop :=
  let h := v_highlighted_target_html v in
  (exists before after,
     row = before ++ target_cell (html_escape h) h ++ after)
  /\ (exists after,
        target_cell (html_escape h) h
        = (str "
        <div class=" ++ quoted "target-container")
            ++ str " data-original-html=" ++ dq ++ html_escape h ++ dq
            ++ after)
  /\ attribute_value (html_escape h) = h
  /\ data_original_html_of row = Some h
  /\ (exists before after, row = before ++ reset_button ++ after)
  /\ forall c : container,
       data_original_html_attr c = data_original_html_of row ->
       exists c' c'',
         perform_all gestures c = Some c'
         /\ data_original_html_attr c' = Some h
         /\ Js.click Js.handler Js.ResetButton c' = Some c''
         /\ inner_html c'' = h
         /\ contenteditable c'' = false
         /\ data_original_html_attr c'' = Some h.

(** Where the page holds its script and one of its rows. *)
Definition page_holds (page script row : text) : Prop :=
  exists before between after,
    page = before ++ str "<script>" ++ script ++ str "</script>" ++ between
             ++ row ++ after.

(** ** Sample documents and a sample folder *)

Definition mk_row (texts : list text) : Row :=
  {| cells := map (fun t => {| c_text := t |}) texts |}.

Definition header_row : Row := mk_row [str "ID"; str "Source"; str "Target"].

Definition one_table (rs : list Row) : Doc := {| tables := [{| rows := rs |}] |}.

Definition rows_of_scenario_A : list Row :=
  [header_row; mk_row [str "1"; str "Hallo"; str "Hello<b>World this is long"]].

Definition scenario_A_doc : Doc := one_table rows_of_scenario_A.

(** Two data rows: the row of scenario A and a row whose target holds tags
    only. *)
Definition sample_rows : list Row :=
  [mk_row [str "1"; str "Hallo"; str "Hello<b>World this is long"];
   mk_row [str "2"; str "Marke"; str "[tag1][tag2]"]].

(** Scenario C: a header row with three cells and [ID] in the middle. *)
Definition scenario_C_doc : Doc :=
  one_table [mk_row [str "Num"; str "ID"; str "Source"];
             mk_row [str "1"; str "7"; str "Hallo"]].

(** Two tables whose second, respectively third, row lacks the target cell. *)
Definition short_row_first : Doc :=
  one_table [header_row;
             mk_row [str "1"; str "eins"];
             mk_row [str "2"; str "zwei"; str "two"]].

Definition short_row_second : Doc :=
  one_table [header_row;
             mk_row [str "1"; str "eins"; str "one"];
             mk_row [str "2"; str "zwei"]].

(** A folder [/work] that holds the single file [job.docx], on a system
    with [/] as separator. *)
Definition sample_os : os_env :=
  {| getcwd := str "/work";
     listdir := fun _ => [str "job.docx"];
     path_join := fun a b => a ++ str "/" ++ b;
     path_isfile := fun _ => true;
     path_splitext := fun p =>
       match rev (split (ch ".") p) with
       | ext :: (_ :: _) as root =>
           (join (str ".") (rev root), ch "." :: ext)
       | _ => (p, [])
       end;
     path_basename := fun p => last (split (ch "/") p) [] |}.

Definition sample_world (line : text) : world :=
  {| python_docx := ([str "Dependency check OK: python-docx is available."],
                     ok (fun _ => scenario_A_doc));
     os := sample_os;
     stdin_line := Some line;
     builtin_int := py_int |}.

(** ** [ensure_python_docx]

    The function imports python-docx and, when the import fails, installs it
    with pip, first with the output silenced, then once more with the output
    shown, and imports again. What the import and pip answer is given from
    outside, in the order the function asks: an answer is a value or the
    exception raised, of any type [E] of exceptions that [except Exception]
    catches. The steps record what the function does, in order. *)

Module Setup.

Inductive step : Type :=
| Said (line : text)
| Import
| Pip (silenced : bool).

Record answers (E D : Type) : Type := {
  first_import : E + D;
  quiet_install : E + unit;
  loud_install : E + unit;
  second_import : E + D
}.
Arguments first_import {E D} _.
Arguments quiet_install {E D} _.
Arguments loud_install {E D} _.
Arguments second_import {E D} _.

Definition manual_hint : list step :=
  [Said (str "Please install it manually and run the script again:");
   Said (str "  pip install python-docx")].

Definition ensure_python_docx {E D : Type} (a : answers E D)
  : list step * (E + D) :=
  match first_import a with
  | inr Document =>
      ([Import; Said (str "Dependency check OK: python-docx is available.")],
       inr Document)
  | inl _ =>
      let missing :=
        [Import;
         Said (str "Dependency missing: python-docx is not installed.");
         Said (str "Attempting to install python-docx automatically...")] in
      let install : list step * (E + unit) :=
        match quiet_install a with
        | inr _ => ([Pip true], inr tt)
        | inl _ =>
            match loud_install a with
            | inr _ => ([Pip true; Pip false], inr tt)
            | inl e =>
                ([Pip true; Pip false;
                  Said (str "Error: automatic installation of python-docx failed.")]
                   ++ manual_hint, inl e)
            end
        end in
      match install with
      | (steps, inl e) => (missing ++ steps, inl e)
      | (steps, inr _) =>
          match second_import a with
          | inr Document =>
              (missing ++ steps
                 ++ [Import;
                     Said (str "Dependency installed OK: python-docx is now available.")],
               inr Document)
          | inl e =>
              (missing ++ steps
                 ++ [Import;
                     Said (str "Error: python-docx still cannot be imported after installation.")]
                 ++ manual_hint, inl e)
          end
      end
  end.



End Setup.

(** ** More notions used to state the properties *)

(** The records of an analysis as a list: none or one per row. *)
Definition record_of (r : option violation) : list violation :=
  match r with
  | Some v => [v]
  | None => []
  end.

(** Two records that differ at most in the highlighted rendering. *)
Definition same_measures (v v' : violation) : Prop :=
  v_id v' = v_id v /\ v_source v' = v_source v /\ v_target v' = v_target v
  /\ v_max_len v' = v_max_len v /\ v_segment_len v' = v_segment_len v
  /\ v_line_lengths v' = v_line_lengths v.

(** A text is blank when it holds whitespace only. *)
Definition blank (s : text) : bool := forallb isspace s.

Definition is_written (e : event) : bool :=
  match e with
  | Written _ _ => true
  | _ => false
  end.

(** The path of the report for an input path and a limit. *)
Definition report_path (os : os_env) (input_path : text) (char_limit : Z) : text :=
  fst (path_splitext os input_path) ++ str "_length_report_"
    ++ str_of_int char_limit ++ str ".html".

(** The paths loaded in a list of events are all [p]. *)
Definition loads_only (p : text) (log : list event) : Prop :=
  forall q, In (Loaded q) log -> q = p.

(** * Properties *)

(** ** Strings *)

Lemma text_eqb_eq (a b : text) : text_eqb a b = true <-> a = b.
Proof.
  revert b; induction a as [|x a IH]; intros [|y b]; simpl; split;
    try congruence; try reflexivity.
  - intros H. apply andb_true_iff in H as [Hx Hab].
    apply N.eqb_eq in Hx. apply IH in Hab. congruence.
  - intros H. injection H as -> ->. rewrite N.eqb_refl. simpl. now apply IH.
Qed.

Lemma text_eqb_refl (a : text) : text_eqb a a = true.
Proof. now apply text_eqb_eq. Qed.

Lemma len_app {A : Type} (a b : list A) : len (a ++ b) = len a + len b.
Proof. unfold len. rewrite length_app. lia. Qed.

Lemma len_nonneg {A : Type} (l : list A) : 0 <= len l.
Proof. unfold len. lia. Qed.

(** ** The matcher on the tag pattern *)

Lemma plus_greedy_body (c : char) (body rest : text) (kont : Re.cont) (r : text) :
  body <> [] -> ~ In c body -> kont (c :: rest) = Some r ->
  Re.plus_greedy (Re.Except c) (body ++ c :: rest) kont = Some r.
Proof.
  intros Hne Hnin Hk. induction body as [|x body IH]; [congruence|].
  simpl. assert (Hx : N.eqb x c = false).
  { apply N.eqb_neq. intros ->. apply Hnin. now left. }
  rewrite Hx. simpl. destruct body as [|y body].
  - simpl. rewrite N.eqb_refl. simpl. exact Hk.
  - rewrite IH; [reflexivity|discriminate|].
    intros Hin. apply Hnin. now right.
Qed.

Lemma plus_lazy_body (c : char) (body rest : text) (kont : Re.cont) :
  (forall s', kont s' = Re.run (Re.Lit c) s' Some) ->
  body <> [] -> ~ In c body ->
  Re.plus_lazy (Re.Except c) (body ++ c :: rest) kont = Some rest.
Proof.
  intros Hk Hne Hnin. induction body as [|x body IH]; [congruence|].
  simpl. assert (Hx : N.eqb x c = false).
  { apply N.eqb_neq. intros ->. apply Hnin. now left. }
  rewrite Hx, Hk. destruct body as [|y body].
  - simpl. now rewrite N.eqb_refl.
  - assert (Hy : N.eqb y c = false).
    { apply N.eqb_neq. intros ->. apply Hnin. right. now left. }
    rewrite IH; [|discriminate|intros Hin; apply Hnin; now right].
    simpl. now rewrite Hy.
Qed.

(** A tag span at the head of the text is matched, and the match ends with
    the first closing delimiter. *)
Lemma match_at_tag (t rest : text) :
  tag t -> Re.match_at tag_pattern (t ++ rest) = Some rest.
Proof.
  intros [o c body Hin Hne Hnin]. simpl.
  rewrite <- app_assoc. simpl.
  destruct Hin as [E|[E|[E|[]]]]; injection E as <- <-;
    unfold Re.match_at, tag_pattern; simpl.
  - now rewrite (plus_greedy_body _ body rest _ rest).
  - now rewrite (plus_lazy_body (ch "]") body rest).
  - now rewrite (plus_greedy_body _ body rest _ rest).
Qed.

Lemma plus_greedy_inv (c : char) (s r : text) :
  Re.plus_greedy (Re.Except c) s (fun s' => Re.run (Re.Lit c) s' Some) = Some r ->
  exists body, body <> [] /\ ~ In c body /\ s = body ++ c :: r.
Proof.
  revert r. induction s as [|x s IH]; intros r; simpl; [discriminate|].
  destruct (N.eqb_spec x c) as [->|Hx]; simpl; [discriminate|].
  destruct (Re.plus_greedy (Re.Except c) s _) as [r'|] eqn:E.
  - intros H; injection H as ->. destruct (IH _ eq_refl) as (body & Hne & Hnin & ->).
    exists (x :: body). split; [discriminate|]. split; [|reflexivity].
    intros [H|H]; [congruence|tauto].
  - destruct s as [|y s]; [discriminate|].
    destruct (N.eqb_spec y c) as [->|Hy]; [|discriminate].
    intros H; injection H as ->. exists [x]. split; [discriminate|].
    split; [|reflexivity]. intros [H|[]]; congruence.
Qed.

Lemma plus_lazy_inv (c : char) (s r : text) :
  Re.plus_lazy (Re.Except c) s (fun s' => Re.run (Re.Lit c) s' Some) = Some r ->
  exists body, body <> [] /\ ~ In c body /\ s = body ++ c :: r.
Proof.
  revert r. induction s as [|x s IH]; intros r; simpl; [discriminate|].
  destruct (N.eqb_spec x c) as [->|Hx]; simpl; [discriminate|].
  destruct s as [|y s].
  - simpl. discriminate.
  - destruct (N.eqb_spec y c) as [->|Hy].
    + intros H; injection H as ->. exists [x]. split; [discriminate|].
      split; [|reflexivity]. intros [H|[]]; congruence.
    + intros H. destruct (IH _ H) as (body & Hne & Hnin & E).
      exists (x :: body). split; [discriminate|]. split.
      * intros [H'|H']; [congruence|tauto].
      * simpl. now rewrite E.
Qed.

(** Conversely, whatever the pattern matches is a tag span. *)
Lemma match_at_inv (s rest : text) :
  Re.match_at tag_pattern s = Some rest ->
  exists t, tag t /\ s = t ++ rest.
Proof.
  unfold Re.match_at, tag_pattern. simpl.
  destruct s as [|x s]; [discriminate|].
  assert (Hfin : forall o c body, In (o, c) delimiters -> body <> [] ->
             ~ In c body -> s = body ++ c :: rest -> x = o ->
             exists t, tag t /\ x :: s = t ++ rest).
  { intros o c body Hd Hne Hnin -> ->. exists (o :: body ++ [c]). split.
    - now constructor.
    - simpl. now rewrite <- app_assoc. }
  destruct (N.eqb_spec x 60%N) as [->|H1]; simpl.
  - destruct (Re.plus_greedy _ s _) as [r|] eqn:E; [|discriminate].
    intros H; injection H as ->. apply plus_greedy_inv in E as (b & ? & ? & ?).
    apply (Hfin 60%N 62%N b); auto. now left.
  - destruct (N.eqb_spec x 91%N) as [->|H2]; simpl.
    + destruct (Re.plus_lazy _ s _) as [r|] eqn:E; [|discriminate].
      intros H; injection H as ->. apply plus_lazy_inv in E as (b & ? & ? & ?).
      apply (Hfin 91%N 93%N b); auto. right; now left.
    + destruct (N.eqb_spec x 123%N) as [->|H3]; [|discriminate].
      destruct (Re.plus_greedy _ s _) as [r|] eqn:E; [|discriminate].
      intros H; injection H as ->. apply plus_greedy_inv in E as (b & ? & ? & ?).
      apply (Hfin 123%N 125%N b); auto. right; right; now left.
Qed.

(** A match of the tag pattern consumes at least three characters, so the
    scan of [re.sub] never meets an empty match. *)
Lemma match_at_consumes (s rest : text) :
  Re.match_at tag_pattern s = Some rest ->
  (length rest + 3 <= length s)%nat.
Proof.
  intros H. apply match_at_inv in H as (t & Ht & ->).
  destruct Ht as [o c body _ Hne _]. destruct body as [|x body]; [congruence|].
  simpl. rewrite !length_app. simpl. lia.
Qed.

Lemma match_at_not_opener (x : char) (s : text) :
  opens_tag x = false -> Re.match_at tag_pattern (x :: s) = None.
Proof.
  unfold opens_tag. intros H.
  apply orb_false_iff in H as [H H3]. apply orb_false_iff in H as [H1 H2].
  change (ch "<") with 60%N in H1. change (ch "[") with 91%N in H2.
  change (ch "{") with 123%N in H3.
  unfold Re.match_at, tag_pattern. simpl. now rewrite H1, H2, H3.
Qed.

(** An opening delimiter directly followed by its closing delimiter starts
    no match: every alternative asks for one character in between. *)
Lemma match_at_empty_pair (o c : char) (s : text) :
  In (o, c) delimiters -> Re.match_at tag_pattern (o :: c :: s) = None.
Proof.
  intros [E|[E|[E|[]]]]; injection E as <- <-; reflexivity.
Qed.

(** ** The scan of [re.sub] *)

Lemma sub_from_skip (r : Re.re) (repl a b : text) :
  Re.sub_from r repl (length a) (a ++ b) = Re.sub_from r repl 0 b.
Proof.
  induction a as [|x a IH]; simpl; [|exact IH].
  destruct b; reflexivity.
Qed.

Lemma sub_no_match (r : Re.re) (repl : text) (x : char) (s : text) :
  Re.match_at r (x :: s) = None ->
  Re.sub r repl (x :: s) = x :: Re.sub r repl s.
Proof. unfold Re.sub. simpl. now intros ->. Qed.

Lemma sub_match (r : Re.re) (repl t rest : text) :
  t <> [] -> Re.match_at r (t ++ rest) = Some rest ->
  Re.sub r repl (t ++ rest) = repl ++ Re.sub r repl rest.
Proof.
  intros Hne Hm. destruct t as [|x t]; [congruence|].
  unfold Re.sub. rewrite <- app_comm_cons in *.
  cbn [Re.sub_from]. rewrite Hm.
  replace (length (x :: t ++ rest) - length rest)%nat with (S (length t))
    by (change (length (x :: t ++ rest)) with (S (length (t ++ rest)));
        rewrite length_app; lia).
  now rewrite sub_from_skip.
Qed.

Lemma tag_not_nil (t : text) : tag t -> t <> [].
Proof. intros [o c body _ _ _]. discriminate. Qed.

Lemma sub_tag (repl t rest : text) :
  tag t ->
  Re.sub tag_pattern repl (t ++ rest) = repl ++ Re.sub tag_pattern repl rest.
Proof.
  intros Ht. apply sub_match; [now apply tag_not_nil|now apply match_at_tag].
Qed.

Lemma sub_char (repl : text) (x : char) (s : text) :
  opens_tag x = false ->
  Re.sub tag_pattern repl (x :: s) = x :: Re.sub tag_pattern repl s.
Proof. intros H. apply sub_no_match. now apply match_at_not_opener. Qed.

Lemma sub_empty_pair (repl : text) (o c : char) (s : text) :
  In (o, c) delimiters ->
  Re.sub tag_pattern repl (o :: c :: s) = o :: c :: Re.sub tag_pattern repl s.
Proof.
  intros Hd. rewrite sub_no_match by now apply match_at_empty_pair.
  f_equal. apply sub_char.
  destruct Hd as [E|[E|[E|[]]]]; injection E as <- <-; reflexivity.
Qed.

(** The scan of a settled text ends at its end, so what follows is scanned
    on its own. *)
Lemma sub_settled (repl pre s : text) :
  settled pre ->
  Re.sub tag_pattern repl (pre ++ s)
  = Re.sub tag_pattern repl pre ++ Re.sub tag_pattern repl s.
Proof.
  induction 1 as [|x p Hx Hp IH|t p Ht Hp IH].
  - reflexivity.
  - simpl. rewrite !sub_char by assumption. simpl. now rewrite IH.
  - rewrite <- app_assoc.
    rewrite (sub_tag repl t (p ++ s)), (sub_tag repl t p) by assumption.
    rewrite IH. apply app_assoc.
Qed.

(** ** [str.replace] and the line endings *)

Lemma replace_from_skip (old new a b : text) :
  replace_from old new (length a) (a ++ b) = replace_from old new 0 b.
Proof.
  induction a as [|x a IH]; simpl; [|exact IH].
  destruct b; reflexivity.
Qed.

Lemma replace_char (c : char) (new s : text) :
  replace [c] new s = flat_map (fun x => if N.eqb x c then new else [x]) s.
Proof.
  unfold replace. induction s as [|x s IH]; [reflexivity|].
  simpl. destruct (N.eqb x c); simpl; now rewrite IH.
Qed.

Lemma crlf_hit (s : text) :
  replace [CR; LF] [LF] (CR :: LF :: s) = LF :: replace [CR; LF] [LF] s.
Proof. reflexivity. Qed.

Lemma crlf_miss (x : char) (s : text) :
  startswith (x :: s) [CR; LF] = false ->
  replace [CR; LF] [LF] (x :: s) = x :: replace [CR; LF] [LF] s.
Proof. unfold replace. intros H. cbn [replace_from]. now rewrite H. Qed.

Lemma nle_nil : normalize_line_endings [] = [].
Proof. reflexivity. Qed.

Lemma nle_crlf (s : text) :
  normalize_line_endings (CR :: LF :: s) = LF :: normalize_line_endings s.
Proof.
  unfold normalize_line_endings. rewrite crlf_hit. now rewrite !replace_char.
Qed.

Lemma nle_cr (s : text) :
  (forall s', s <> LF :: s') ->
  normalize_line_endings (CR :: s) = LF :: normalize_line_endings s.
Proof.
  intros H. unfold normalize_line_endings. rewrite crlf_miss.
  - now rewrite !replace_char.
  - simpl. destruct s as [|y s]; [reflexivity|].
    destruct (N.eqb_spec y LF) as [->|]; [|reflexivity].
    now destruct (H s).
Qed.

Lemma nle_other (x : char) (s : text) :
  x <> CR ->
  normalize_line_endings (x :: s) = x :: normalize_line_endings s.
Proof.
  intros H. unfold normalize_line_endings. rewrite crlf_miss.
  - rewrite !replace_char. simpl.
    now destruct (N.eqb_spec x CR) as [->|].
  - simpl. now destruct (N.eqb_spec x CR) as [->|].
Qed.

Lemma nle_app_upto (n : nat) (a b : text) :
  (length a <= n)%nat -> (forall b', b <> LF :: b') ->
  normalize_line_endings (a ++ b)
  = normalize_line_endings a ++ normalize_line_endings b.
Proof.
  revert a. induction n as [|n IH]; intros a Hn Hb.
  - destruct a; [reflexivity|simpl in Hn; lia].
  - destruct a as [|x a]; [reflexivity|]. simpl in Hn.
    destruct (N.eq_dec x CR) as [->|Hx].
    + destruct a as [|y a].
      * change ([CR] ++ b) with (CR :: b). now rewrite nle_cr.
      * destruct (N.eq_dec y LF) as [->|Hy].
        -- change ((CR :: LF :: a) ++ b) with (CR :: LF :: a ++ b).
           rewrite !nle_crlf. simpl in Hn. rewrite IH by (auto; lia).
           reflexivity.
        -- change ((CR :: y :: a) ++ b) with (CR :: (y :: a) ++ b).
           rewrite (nle_cr ((y :: a) ++ b)) by (simpl; congruence).
           rewrite (nle_cr (y :: a)) by congruence.
           rewrite IH by (auto; lia). reflexivity.
    + change ((x :: a) ++ b) with (x :: a ++ b).
      rewrite !nle_other by assumption. rewrite IH by (auto; lia).
      reflexivity.
Qed.

Lemma nle_app (a b : text) :
  (forall b', b <> LF :: b') ->
  normalize_line_endings (a ++ b)
  = normalize_line_endings a ++ normalize_line_endings b.
Proof. apply (nle_app_upto (length a)). lia. Qed.

Lemma nle_no_cr (s : text) : ~ In CR (normalize_line_endings s).
Proof.
  unfold normalize_line_endings. rewrite (replace_char CR).
  intros H. apply in_flat_map in H as (x & _ & Hx). cbv beta in Hx.
  destruct (N.eqb x CR) eqn:E.
  - destruct Hx as [E'|[]]. discriminate.
  - destruct Hx as [E'|[]]. subst x. now rewrite N.eqb_refl in E.
Qed.

(** ** [normalize_with_linebreaks] *)

Lemma normalize_eq (s : text) :
  normalize_with_linebreaks s
  = normalize_line_endings (Re.sub tag_pattern [LF] s).
Proof. destruct s; reflexivity. Qed.

Lemma normalize_tag (t rest : text) :
  tag t ->
  normalize_with_linebreaks (t ++ rest) = LF :: normalize_with_linebreaks rest.
Proof.
  intros Ht. rewrite !normalize_eq, sub_tag by assumption.
  simpl. now rewrite nle_other.
Qed.

Lemma normalize_tag_as_line_feed (pre t rest : text) :
  settled pre -> tag t ->
  normalize_with_linebreaks (pre ++ t ++ rest)
  = normalize_with_linebreaks (pre ++ LF :: rest).
Proof.
  intros Hp Ht. rewrite !normalize_eq.
  rewrite (sub_settled _ pre (t ++ rest)), (sub_settled _ pre (LF :: rest))
    by assumption.
  rewrite sub_tag by assumption. now rewrite sub_char.
Qed.

Lemma normalize_no_cr (s : text) : ~ In CR (normalize_with_linebreaks s).
Proof. rewrite normalize_eq. apply nle_no_cr. Qed.

Lemma normalize_crlf (rest : text) :
  normalize_with_linebreaks (CR :: LF :: rest)
  = LF :: normalize_with_linebreaks rest.
Proof.
  rewrite !normalize_eq. rewrite !sub_char by reflexivity. apply nle_crlf.
Qed.

Lemma normalize_lone_cr (x : char) (rest : text) :
  x <> LF -> opens_tag x = false ->
  normalize_with_linebreaks (CR :: x :: rest)
  = LF :: normalize_with_linebreaks (x :: rest).
Proof.
  intros Hx Ho. rewrite !normalize_eq. rewrite sub_char by reflexivity.
  rewrite sub_char by assumption. apply nle_cr. congruence.
Qed.

Lemma normalize_empty_pair (pre rest : text) (o c : char) :
  In (o, c) delimiters -> settled pre ->
  normalize_with_linebreaks (pre ++ o :: c :: rest)
  = normalize_with_linebreaks pre ++ o :: c :: normalize_with_linebreaks rest.
Proof.
  intros Hd Hp. rewrite !normalize_eq, sub_settled by assumption.
  rewrite sub_empty_pair by assumption.
  assert (o <> LF /\ o <> CR /\ c <> CR) as (H1 & H2 & H3).
  { destruct Hd as [E|[E|[E|[]]]]; injection E as <- <-; repeat split;
      discriminate. }
  rewrite nle_app by congruence. now rewrite !nle_other.
Qed.

Lemma normalize_plain (s : text) :
  plain s = true -> normalize_with_linebreaks s = s.
Proof.
  rewrite normalize_eq. induction s as [|x s IH]; [reflexivity|].
  simpl. intros H. apply andb_true_iff in H as [Hx Hs].
  apply negb_true_iff in Hx. apply orb_false_iff in Hx as [Hx Hcr].
  apply orb_false_iff in Hx as [Ho Hlf]. apply N.eqb_neq in Hcr.
  rewrite sub_char by assumption. rewrite nle_other by assumption.
  now rewrite IH.
Qed.

Lemma split_no_sep (sep : char) (s : text) :
  ~ In sep s -> split sep s = [s].
Proof.
  induction s as [|x s IH]; [reflexivity|]. intros H. simpl.
  destruct (N.eqb_spec x sep) as [->|Hx].
  - exfalso. apply H. now left.
  - rewrite IH; [reflexivity|]. intros Hin. apply H. now right.
Qed.

Lemma plain_no_lf (s : text) : plain s = true -> ~ In LF s.
Proof.
  intros H Hin. unfold plain in H. rewrite forallb_forall in H.
  specialize (H _ Hin). now rewrite N.eqb_refl, orb_true_r in H.
Qed.

(** ** The tag normalizer *)

Lemma tag_b : tag (str "<b>").
Proof.
  apply (tag_span (ch "<") (ch ">") [ch "b"]).
  - simpl. left. reflexivity.
  - discriminate.
  - simpl. intros [H|[]]. discriminate.
Defined.

Lemma settled_Hello : settled (str "Hello").
Proof. repeat (apply settled_char; [reflexivity|]). apply settled_nil. Defined.

(** The line endings, pass by pass and in one pass. *)
Lemma line_endings_one_pass (s : text) :
  normalize_line_endings s = uniform_line_endings s.
Proof.
  remember (length s) as n eqn:Hn.
  assert (Hle : (length s <= n)%nat) by lia. clear Hn.
  revert s Hle. induction n as [|n IH]; intros s Hle.
  - destruct s; [reflexivity|simpl in Hle; lia].
  - destruct s as [|x s]; [reflexivity|]. simpl in Hle.
    cbn [uniform_line_endings].
    destruct (N.eqb_spec x CR) as [->|Hx].
    + destruct s as [|y s].
      * reflexivity.
      * simpl in Hle. destruct (N.eqb_spec y LF) as [->|Hy].
        -- rewrite nle_crlf. f_equal. apply IH. lia.
        -- rewrite nle_cr by congruence. f_equal. apply IH. simpl. lia.
    + rewrite nle_other by assumption. f_equal. apply IH. lia.
Qed.

(** The scan of [re.sub] replaces the tag spans from the left. *)
Lemma sub_replaces_tags (s : text) :
  tags_replaced s (Re.sub tag_pattern [LF] s).
Proof.
  remember (length s) as n eqn:Hn.
  assert (Hle : (length s <= n)%nat) by lia. clear Hn.
  revert s Hle. induction n as [|n IH]; intros s Hle.
  - destruct s; [constructor|simpl in Hle; lia].
  - destruct s as [|x s]; [constructor|].
    destruct (Re.match_at tag_pattern (x :: s)) as [r|] eqn:Em.
    + pose proof (match_at_consumes _ _ Em) as Hlen.
      destruct (match_at_inv _ _ Em) as (t & Ht & E). rewrite E.
      rewrite sub_tag by assumption. apply tags_replaced_tag; [exact Ht|].
      apply IH. simpl in *. lia.
    + rewrite sub_no_match by assumption. apply tags_replaced_char.
      * intros t r Ht E. rewrite E, match_at_tag in Em by assumption.
        discriminate.
      * apply IH. simpl in Hle. lia.
Qed.

Lemma tags_replaced_unique (s out : text) :
  tags_replaced s out -> out = Re.sub tag_pattern [LF] s.
Proof.
  induction 1 as [|t rest out Ht _ IH|x rest out Hx _ IH].
  - reflexivity.
  - rewrite sub_tag by assumption. simpl. now rewrite IH.
  - rewrite sub_no_match; [now rewrite IH|].
    destruct (Re.match_at tag_pattern (x :: rest)) as [r|] eqn:Em;
      [|reflexivity].
    destruct (match_at_inv _ _ Em) as (t & Ht & E). now destruct (Hx t r).
Qed.

(** C2, as stated, fails: in ["a\r<b>c"] the lone carriage return and the
    tag span give one line feed together, not one each. The line feed that
    replaces the tag is taken, with the carriage return before it, for one
    line ending. *)
Lemma carriage_return_and_tag_share_a_line_feed :
  tag (str "<b>")
  /\ normalize_with_linebreaks (str "a" ++ CR :: str "<b>" ++ str "c")
     = str "a" ++ LF :: str "c"
  /\ normalize_with_linebreaks (str "a" ++ CR :: str "<b>" ++ str "c")
     <> str "a" ++ LF :: LF :: str "c"
  /\ logical_lines (str "a" ++ CR :: str "<b>" ++ str "c") = [str "a"; str "c"]
  /\ ~ (forall pre t rest,
          plain pre = true -> tag t -> plain rest = true ->
          normalize_with_linebreaks (pre ++ CR :: t ++ rest)
          = pre ++ LF :: LF :: rest).
Proof.
  split; [exact tag_b|]. split; [reflexivity|]. split; [discriminate|].
  split; [reflexivity|]. intros H.
  specialize (H (str "a") (str "<b>") (str "c") eq_refl tag_b eq_refl).
  discriminate H.
Qed.

(** C2, amended: for every input string the result is obtained in two
    steps. First, reading from the left, every tag span that starts at the
    current position (an opening delimiter of one of the three syntaxes, a
    non-empty body without the closing delimiter, the first closing
    delimiter) becomes exactly one line feed, whatever its length, and every
    other character is copied; this is what the pattern matches, and two
    consecutive spans give two line feeds. Then, in the text so obtained, a
    carriage return with the line feed after it becomes one line feed and
    any other carriage return becomes one line feed; so a carriage return
    directly before a tag span gives one line feed together with the span.
    The result holds no carriage return, and the empty string gives the
    empty string. *)
Theorem normalize_replaces_tags_then_line_endings (s : text) :
  (exists out,
     tags_replaced s out
     /\ (forall out', tags_replaced s out' -> out' = out)
     /\ normalize_with_linebreaks s = uniform_line_endings out)
  /\ (forall r, Re.match_at tag_pattern s = Some r <->
                exists t, tag t /\ s = t ++ r)
  /\ (forall t, tag t ->
        normalize_with_linebreaks (t ++ s) = LF :: normalize_with_linebreaks s)
  /\ (forall t t', tag t -> tag t' ->
        normalize_with_linebreaks (t ++ t' ++ s)
        = LF :: LF :: normalize_with_linebreaks s)
  /\ (forall t, tag t ->
        normalize_with_linebreaks (CR :: t ++ s)
        = LF :: normalize_with_linebreaks s)
  /\ ~ In CR (normalize_with_linebreaks s)
  /\ normalize_with_linebreaks [] = [].
Proof.
  split; [|split; [|split; [|split; [|split; [|split]]]]].
  - exists (Re.sub tag_pattern [LF] s). split; [apply sub_replaces_tags|].
    split.
    + intros out' H. now apply tags_replaced_unique.
    + rewrite normalize_eq. apply line_endings_one_pass.
  - intros r. split; [apply match_at_inv|].
    intros (t & Ht & ->). now apply match_at_tag.
  - intros t Ht. now apply normalize_tag.
  - intros t t' Ht Ht'. now rewrite !normalize_tag.
  - intros t Ht. rewrite !normalize_eq.
    rewrite sub_char by reflexivity. rewrite sub_tag by assumption.
    apply nle_crlf.
  - apply normalize_no_cr.
  - reflexivity.
Qed.

Lemma normalize_replaces_tags_then_line_endings_witness :
  normalize_with_linebreaks (str "<b>" ++ str "<b>" ++ str "World")
  = LF :: LF :: normalize_with_linebreaks (str "World")
  /\ normalize_with_linebreaks (CR :: str "<b>" ++ str "World")
     = LF :: normalize_with_linebreaks (str "World").
Proof.
  destruct (normalize_replaces_tags_then_line_endings (str "World"))
    as (_ & _ & _ & H4 & H5 & _).
  split; [exact (H4 _ _ tag_b tag_b)|exact (H5 _ tag_b)].
Defined.

(** The line feed of a tag span that follows a carriage return is taken
    with it as one line ending. *)
Lemma carriage_return_before_tag :
  normalize_with_linebreaks (str "a" ++ CR :: str "<b>c") = str "a" ++ LF :: str "c".
Proof. reflexivity. Qed.

(** C10, as stated, fails: in ["<<>"] the empty pair is the end of a tag
    span whose body is the first ["<"], and the whole text becomes one line
    feed. *)
Lemma empty_pair_inside_tag_collapses :
  normalize_with_linebreaks (str "<<>") = [LF]
  /\ ~ (exists a b, normalize_with_linebreaks (str "<<>") = a ++ str "<>" ++ b).
Proof.
  split; [reflexivity|].
  intros (a & b & H). apply (f_equal (@length char)) in H.
  rewrite !length_app in H. simpl in H. lia.
Qed.

(** C10, amended: an empty delimiter pair starts no match, and after a
    settled prefix (complete tag spans and characters that open no tag) it
    is copied unchanged while the text after it is normalized on its own;
    between plain texts it stays in its logical line and its two characters
    count in the length of that line. *)
Theorem empty_pair_kept (pre rest : text) (o c : char) :
  In (o, c) delimiters -> settled pre ->
  Re.match_at tag_pattern (o :: c :: rest) = None
  /\ normalize_with_linebreaks (pre ++ o :: c :: rest)
     = normalize_with_linebreaks pre ++ o :: c :: normalize_with_linebreaks rest
  /\ (plain pre = true -> plain rest = true ->
      map len (split LF (normalize_with_linebreaks (pre ++ o :: c :: rest)))
      = [len pre + 2 + len rest]).
Proof.
  intros Hd Hp. split; [now apply match_at_empty_pair|].
  split; [now apply normalize_empty_pair|].
  intros Hpre Hrest. rewrite normalize_empty_pair by assumption.
  rewrite !normalize_plain by assumption.
  rewrite split_no_sep.
  - simpl. rewrite len_app. unfold len. simpl length. f_equal. lia.
  - intros Hin. apply in_app_or in Hin as [Hin|[E|[E|Hin]]].
    + now apply (plain_no_lf pre).
    + destruct Hd as [E'|[E'|[E'|[]]]]; injection E' as <- <-;
        subst; discriminate.
    + destruct Hd as [E'|[E'|[E'|[]]]]; injection E' as <- <-;
        subst; discriminate.
    + now apply (plain_no_lf rest).
Qed.

Lemma settled_ab : settled (str "ab").
Proof. repeat (apply settled_char; [reflexivity|]). apply settled_nil. Defined.

Lemma empty_pair_kept_witness :
  normalize_with_linebreaks (str "ab" ++ ch "<" :: ch ">" :: str "cd")
  = normalize_with_linebreaks (str "ab")
      ++ ch "<" :: ch ">" :: normalize_with_linebreaks (str "cd")
  /\ map len (split LF (normalize_with_linebreaks
                          (str "ab" ++ ch "<" :: ch ">" :: str "cd")))
     = [len (str "ab") + 2 + len (str "cd")].
Proof.
  assert (Hd : In (ch "<", ch ">") delimiters) by (simpl; left; reflexivity).
  destruct (empty_pair_kept (str "ab") (str "cd") (ch "<") (ch ">") Hd settled_ab)
    as (_ & H2 & H3).
  split; [exact H2|]. apply H3; reflexivity.
Defined.

(** ** Built-in functions *)

Lemma fold_left_max_ge (l : list Z) (a : Z) : a <= fold_left Z.max l a.
Proof.
  revert a. induction l as [|x l IH]; intros a; simpl; [lia|].
  specialize (IH (Z.max a x)). lia.
Qed.

Lemma fold_left_max_bound (l : list Z) (a : Z) :
  Forall (fun n => n <= fold_left Z.max l a) l.
Proof.
  revert a. induction l as [|x l IH]; intros a; simpl; constructor.
  - pose proof (fold_left_max_ge l (Z.max a x)). lia.
  - apply IH.
Qed.

Lemma fold_left_max_in (l : list Z) (a : Z) :
  fold_left Z.max l a = a \/ In (fold_left Z.max l a) l.
Proof.
  revert a. induction l as [|x l IH]; intros a; simpl; [now left|].
  destruct (IH (Z.max a x)) as [E|H]; [|now right; right].
  rewrite E. destruct (Z.max_spec a x) as [[_ ->]|[_ ->]]; auto.
Qed.

(** [max] of a non-empty list returns its greatest element. *)
Lemma py_max_spec (l : list Z) :
  l <> [] ->
  exists m, py_max l = ok m /\ In m l /\ Forall (fun n => n <= m) l.
Proof.
  destruct l as [|x l]; [congruence|]. intros _. simpl.
  exists (fold_left Z.max l x). split; [reflexivity|]. split.
  - destruct (fold_left_max_in l x) as [->|H]; [now left|now right].
  - constructor; [apply fold_left_max_ge|apply fold_left_max_bound].
Qed.

Lemma fold_left_add (l : list Z) (a : Z) :
  fold_left Z.add l a = a + fold_right Z.add 0 l.
Proof.
  revert a. induction l as [|x l IH]; intros a; simpl; [lia|].
  rewrite IH. lia.
Qed.

Lemma py_sum_spec (l : list Z) : py_sum l = fold_right Z.add 0 l.
Proof. unfold py_sum. now rewrite fold_left_add. Qed.

Lemma join_empty (parts : list text) : join [] parts = concat parts.
Proof.
  induction parts as [|p ps IH]; [reflexivity|].
  simpl. destruct ps as [|q ps].
  - now rewrite app_nil_r.
  - now rewrite <- IH.
Qed.

(** ** Blank lines *)

Lemma lstrip_spaces (s : text) : forallb isspace s = true -> lstrip s = [].
Proof.
  induction s as [|x s IH]; [reflexivity|]. simpl.
  intros H. apply andb_true_iff in H as [-> Hs]. now apply IH.
Qed.

Lemma is_blank_spaces (s : text) : forallb isspace s = true -> is_blank s = true.
Proof.
  intros H. unfold is_blank, strip. now rewrite lstrip_spaces.
Qed.

Lemma split_pieces (sep : char) (s l : text) (x : char) :
  In l (split sep s) -> In x l -> In x s.
Proof.
  revert l. induction s as [|y s IH]; intros l; simpl.
  - intros [<-|[]] [].
  - destruct (N.eqb y sep).
    + intros [<-|H] Hx; [destruct Hx|]. right. now apply (IH l).
    + destruct (split sep s) as [|p ps] eqn:E.
      * intros [<-|[]] [->|[]]. now left.
      * intros [<-|H] Hx.
        -- destruct Hx as [->|Hx]; [now left|]. right. apply (IH p); auto.
           now left.
        -- right. apply (IH l); auto. now right.
Qed.

Lemma replace_from_in (old new : text) (k : nat) (s : text) (x : char) :
  In x (replace_from old new k s) -> In x s \/ In x new.
Proof.
  revert k. induction s as [|y s IH]; intros k; simpl; [tauto|].
  destruct k as [|k].
  - destruct (startswith (y :: s) old).
    + intros H. apply in_app_or in H as [H|H]; [now right|].
      destruct (IH _ H); auto.
    + intros [->|H]; [now left; left|]. destruct (IH _ H); auto.
  - intros H. destruct (IH _ H); auto.
Qed.

Lemma isspace_not_opener (x : char) : isspace x = true -> opens_tag x = false.
Proof.
  unfold opens_tag. intros H.
  destruct (N.eqb_spec x (ch "<")) as [->|_]; [discriminate|].
  destruct (N.eqb_spec x (ch "[")) as [->|_]; [discriminate|].
  destruct (N.eqb_spec x (ch "{")) as [->|_]; [discriminate|].
  reflexivity.
Qed.

Lemma sub_tags_and_whitespace (s : text) :
  tags_and_whitespace s ->
  forall x, In x (Re.sub tag_pattern [LF] s) -> isspace x = true.
Proof.
  induction 1 as [|y s Hy Hs IH|t s Ht Hs IH]; intros x.
  - intros [].
  - rewrite sub_char by now apply isspace_not_opener.
    intros [<-|H]; auto.
  - rewrite sub_tag by assumption. intros [<-|H]; auto.
Qed.

(** A target made of tags and whitespace has no line that counts. *)
Lemma counted_lines_tags_and_whitespace (target : text) :
  tags_and_whitespace target -> counted_lines target = [].
Proof.
  intros Htw. unfold counted_lines, logical_lines.
  assert (Hall : forall x, In x (normalize_with_linebreaks target) ->
                           isspace x = true).
  { intros x. rewrite normalize_eq. unfold normalize_line_endings, replace.
    intros H. apply replace_from_in in H as [H|[<-|[]]]; [|reflexivity].
    apply replace_from_in in H as [H|[<-|[]]]; [|reflexivity].
    now apply (sub_tags_and_whitespace target). }
  set (ls := split LF (normalize_with_linebreaks target)).
  assert (Hls : forall l, In l ls -> is_blank l = true).
  { intros l Hl. apply is_blank_spaces. apply forallb_forall.
    intros x Hx. apply Hall. now apply (split_pieces LF _ l). }
  clearbody ls. induction ls as [|l ls IH]; [reflexivity|].
  simpl. rewrite (Hls l) by now left. simpl. apply IH.
  intros l' Hl'. apply Hls. now right.
Qed.

(** ** The segment analyzer *)

Lemma index_ok {A : Type} (l : list A) (i : nat) (a : A) :
  index l i = ok a <-> nth_error l i = Some a.
Proof.
  unfold index, ok, throw. destruct (nth_error l i); split; congruence.
Qed.

Lemma index_throw {A : Type} (l : list A) (i : nat) :
  (length l <= i)%nat -> index l i = throw IndexError.
Proof.
  intros H. unfold index. apply nth_error_None in H. now rewrite H.
Qed.

(** The three cells a row is read at, and what is done with the target. *)
Lemma analyze_row_cells (id_idx src_idx trg_idx : nat) (char_limit : Z)
  (row : Row) (r : option violation) :
  analyze_row id_idx src_idx trg_idx char_limit row = ok r ->
  exists id_cell src_cell trg_cell,
    nth_error (cells row) id_idx = Some id_cell
    /\ nth_error (cells row) src_idx = Some src_cell
    /\ nth_error (cells row) trg_idx = Some trg_cell
    /\ forall v, r = Some v ->
         v_id v = strip (c_text id_cell)
         /\ v_source v = c_text src_cell
         /\ v_target v = c_text trg_cell
         /\ v_highlighted_target_html v
            = join [] (map (highlighted_line char_limit)
                         (logical_lines (c_text trg_cell))).
Proof.
  unfold analyze_row, index.
  destruct (nth_error (cells row) id_idx) as [id_cell|]; [|discriminate].
  destruct (nth_error (cells row) src_idx) as [src_cell|]; [|discriminate].
  destruct (nth_error (cells row) trg_idx) as [trg_cell|]; [|discriminate].
  simpl. intros H. exists id_cell, src_cell, trg_cell.
  split; [reflexivity|]. split; [reflexivity|]. split; [reflexivity|].
  intros v ->. revert H.
  destruct (filter _ _) as [|l ls]; [discriminate|].
  destruct (py_max _) as [e|m]; simpl; [discriminate|].
  destruct (m <=? char_limit); [discriminate|].
  intros H; injection H as <-. repeat split.
Qed.

Lemma analyze_row_outcome (id_idx src_idx trg_idx : nat) (char_limit : Z)
  (row : Row) (trg_cell : Cell) (r : option violation) :
  nth_error (cells row) trg_idx = Some trg_cell ->
  analyze_row id_idx src_idx trg_idx char_limit row = ok r ->
  row_outcome char_limit (c_text trg_cell) r.
Proof.
  intros Htrg. unfold analyze_row, index. rewrite Htrg.
  destruct (nth_error (cells row) id_idx) as [id_cell|]; [|discriminate].
  destruct (nth_error (cells row) src_idx) as [src_cell|]; [|discriminate].
  simpl. fold (logical_lines (c_text trg_cell)).
  fold (counted_lines (c_text trg_cell)).
  unfold row_outcome.
  destruct (counted_lines (c_text trg_cell)) as [|l ls] eqn:Ecount.
  - intros H; injection H as <-. split; [split|split].
    + intros (v & Hv). discriminate.
    + intros (Hne & _). congruence.
    + intros v Hv. discriminate.
    + reflexivity.
  - set (lengths := map len (l :: ls)).
    destruct (py_max_spec lengths) as (m & Hm & Hin & Hall); [discriminate|].
    rewrite Hm. simpl rbind. rewrite py_sum_spec.
    assert (Htw : tags_and_whitespace (c_text trg_cell) -> False).
    { intros Htw. apply counted_lines_tags_and_whitespace in Htw. congruence. }
    destruct (Z.leb_spec m char_limit) as [Hle|Hgt].
    + intros H; injection H as <-. split; [split|split].
      * intros (v & Hv). discriminate.
      * intros (_ & m' & Hin' & _ & Hlim). exfalso.
        rewrite Forall_forall in Hall. specialize (Hall _ Hin'). lia.
      * intros v Hv. discriminate.
      * intros Htw'. now destruct (Htw Htw').
    + intros H; injection H as <-. split; [split|split].
      * intros _. split; [discriminate|]. exists m. auto.
      * intros _. eauto.
      * intros v Hv. injection Hv as <-. simpl. auto.
      * intros Htw'. now destruct (Htw Htw').
Qed.


Lemma analyze_row_total (id_idx src_idx trg_idx : nat) (char_limit : Z)
  (row : Row) :
  (id_idx < length (cells row))%nat -> (src_idx < length (cells row))%nat ->
  (trg_idx < length (cells row))%nat ->
  exists r, analyze_row id_idx src_idx trg_idx char_limit row = ok r.
Proof.
  intros Hi Hs Ht. unfold analyze_row, index.
  apply nth_error_Some in Hi, Hs, Ht.
  destruct (nth_error (cells row) id_idx) as [id_cell|]; [|congruence].
  destruct (nth_error (cells row) src_idx) as [src_cell|]; [|congruence].
  destruct (nth_error (cells row) trg_idx) as [trg_cell|]; [|congruence].
  simpl. destruct (filter _ _) as [|l ls]; [now exists None|].
  destruct (py_max_spec (map len (l :: ls))) as (m & -> & _); [discriminate|].
  simpl. destruct (m <=? char_limit); eauto.
Qed.



(** C3, as stated, fails: the longest line of the scenario has 18
    characters, so the record does not hold 19. *)
Lemma scenario_A_max_is_not_19 :
  ~ (exists v,
       snd (analyze_document (fun _ => scenario_A_doc) (str "a.docx") 10) = ok [v]
       /\ v_max_len v = 19).
Proof.
  intros (v & H & Hm). vm_compute in H. injection H as <-.
  vm_compute in Hm. discriminate.
Qed.

(** C3, amended: the target ["Hello<b>World this is long"] has the two
    logical lines ["Hello"] and ["World this is long"]; with the limit 10
    only the second is over the limit, and the analysis returns one record
    whose maximal line length is 18, with the part after the tenth
    character of the second line marked as overflow. *)
Theorem scenario_A_max_is_18 :
  logical_lines (str "Hello<b>World this is long")
  = [str "Hello"; str "World this is long"]
  /\ map (fun l => 10 <? len l) (logical_lines (str "Hello<b>World this is long"))
     = [false; true]
  /\ exists v,
       snd (analyze_document (fun _ => scenario_A_doc) (str "a.docx") 10) = ok [v]
       /\ v_max_len v = 18
       /\ v_line_lengths v = [5; 18]
       /\ v_segment_len v = 23
       /\ v_highlighted_target_html v
          = str "Hello<br>World this" ++ span_overflow_open
              ++ str " is long</span><br>".
Proof.
  split; [reflexivity|]. split; [reflexivity|].
  eexists. split; [vm_compute; reflexivity|].
  repeat split.
Qed.

(** ** Escaping *)

Lemma html_escape_app (a b : text) :
  html_escape (a ++ b) = html_escape a ++ html_escape b.
Proof.
  unfold html_escape.
  change (str "&") with [38%N]. change (str "<") with [60%N].
  change (str ">") with [62%N]. change dq with [34%N].
  change (str "'") with [39%N].
  rewrite !replace_char. now rewrite !flat_map_app.
Qed.

Lemma html_escape_one (x : char) : html_escape [x] = escape_char x.
Proof.
  unfold html_escape, escape_char.
  change (str "&") with [38%N]. change (str "<") with [60%N].
  change (str ">") with [62%N]. change dq with [34%N].
  change (str "'") with [39%N].
  change (ch "&") with 38%N. change (ch "<") with 60%N.
  change (ch ">") with 62%N. change (ch "'") with 39%N.
  rewrite !replace_char.
  destruct (N.eqb_spec x 38) as [->|H1]; [reflexivity|].
  destruct (N.eqb_spec x 60) as [->|H2]; [reflexivity|].
  destruct (N.eqb_spec x 62) as [->|H3]; [reflexivity|].
  destruct (N.eqb_spec x 34) as [->|H4]; [reflexivity|].
  destruct (N.eqb_spec x 39) as [->|H5]; [reflexivity|].
  apply N.eqb_neq in H1, H2, H3, H4, H5.
  simpl. rewrite H1. simpl. rewrite H2. simpl. rewrite H3. simpl.
  rewrite H4. simpl. now rewrite H5.
Qed.

(** [html.escape] works character by character. *)
Lemma html_escape_chars (s : text) : html_escape s = flat_map escape_char s.
Proof.
  induction s as [|x s IH]; [reflexivity|].
  change (x :: s) with ([x] ++ s). rewrite html_escape_app, html_escape_one.
  simpl. now rewrite IH.
Qed.

(** ** The highlighted rendering *)




(** ** The table locator *)

Lemma contains_In (x : text) (l : list text) : contains x l = true <-> In x l.
Proof.
  unfold contains. rewrite existsb_exists. split.
  - intros (y & Hy & E). apply text_eqb_eq in E. now subst.
  - intros H. exists x. split; [assumption|apply text_eqb_refl].
Qed.

Lemma header_like_test (row : Row) :
  contains ID (stripped_cells row) && (3 <=? len (stripped_cells row)) = true
  <-> header_like row.
Proof.
  unfold header_like, len, stripped_cells. rewrite length_map.
  rewrite andb_true_iff, contains_In, Z.leb_le, in_map_iff.
  split; intros [(c & H1) H2].
  - split; [exists c; tauto|lia].
  - split; [exists c; tauto|lia].
Qed.

(** The first position of [ID] among the trimmed texts is the first cell
    whose trimmed text is [ID]. *)
Lemma first_id_cell_stripped (row : Row) (i : nat) :
  nth_error (stripped_cells row) i = Some ID ->
  (forall j, (j < i)%nat -> nth_error (stripped_cells row) j <> Some ID) ->
  first_id_cell row i.
Proof.
  unfold stripped_cells, first_id_cell. intros Hi Hf. split.
  - rewrite nth_error_map in Hi.
    destruct (nth_error (cells row) i) as [c|]; [|discriminate].
    exists c. split; [reflexivity|]. simpl in Hi. congruence.
  - intros j c Hj Hc E. apply (Hf j Hj).
    rewrite nth_error_map, Hc. simpl. now rewrite E.
Qed.

(** [l.index(x)] returns the first position of [x] when [x] is in [l]. *)
Lemma list_index_first (x : text) (l : list text) :
  In x l ->
  exists i, list_index x l = ok i
            /\ nth_error l i = Some x
            /\ forall j, (j < i)%nat -> nth_error l j <> Some x.
Proof.
  induction l as [|y l IH]; [intros []|]. intros Hin. simpl.
  destruct (text_eqb y x) eqn:E.
  - apply text_eqb_eq in E as ->. exists O. repeat split. intros j Hj. lia.
  - assert (Hne : y <> x).
    { intros ->. now rewrite text_eqb_refl in E. }
    destruct Hin as [Hin|Hin]; [congruence|].
    destruct (IH Hin) as (i & -> & Hi & Hfirst).
    exists (S i). repeat split; trivial.
    intros [|j] Hj; simpl; [congruence|]. apply Hfirst. lia.
Qed.

Lemma find_header_row_spec (rs : list Row) (k : nat) :
  header_row_found rs k (find_header_row rs k).
Proof.
  revert k. induction rs as [|row rs IH]; intros k; simpl.
  - intros r [].
  - destruct (contains ID (stripped_cells row)
              && (3 <=? len (stripped_cells row))) eqn:E.
    + apply header_like_test in E.
      destruct (list_index_first ID (stripped_cells row)) as (i & -> & Hi & Hf).
      { destruct E as [(c & Hc & Ec) _]. unfold stripped_cells.
        apply in_map_iff. exists c. tauto. }
      simpl.
      exists O, row. split; [lia|]. split; [reflexivity|].
      split; [exact E|]. split; [intros r []|].
      now apply first_id_cell_stripped.
    + assert (Hrow : ~ header_like row).
      { intros H. apply header_like_test in H. congruence. }
      specialize (IH (S k)). unfold header_row_found in *.
      destruct (find_header_row rs (S k)) as [e|[[ri ci]|]]; [exact IH| |].
      * destruct IH as (i & r & -> & Hnth & Hh & Hfirst & Hid).
        exists (S i), r. split; [lia|]. split; [exact Hnth|].
        split; [exact Hh|]. split; [|exact Hid].
        simpl. intros r' [<-|Hr']; auto.
      * intros r [<-|Hr]; auto.
Qed.

Lemma find_in_tables_spec (ts : list Table) : table_found ts (find_in_tables ts).
Proof.
  induction ts as [|table ts IH]; simpl.
  - intros t r [].
  - pose proof (find_header_row_spec (rows table) 0) as Hrow.
    destruct (find_header_row (rows table) 0) as [e|[[ri ci]|]]; simpl in *.
    + exact Hrow.
    + destruct Hrow as (i & row & -> & Hrest).
      exists [], ts, row. split; [reflexivity|]. split; [intros t r []|].
      exact Hrest.
    + unfold table_found in *.
      destruct (find_in_tables ts) as [e|[[[t ri] ci]|]]; [exact IH| |].
      * destruct IH as (before & after & row & -> & Hbefore & Hrest).
        exists (table :: before), after, row. split; [reflexivity|].
        split; [|exact Hrest].
        intros t' r [<-|Ht'] Hr; [now apply Hrow|now apply (Hbefore t')].
      * intros t r [<-|Ht] Hr; [now apply Hrow|now apply (IH t)].
Qed.

(** The violation list [analyze_document] returns, without the messages. *)
Lemma analyze_document_result (Document : text -> Doc) (docx_path : text)
  (char_limit : Z) :
  snd (analyze_document Document docx_path char_limit)
  = (found <- find_bilingual_table (Document docx_path) ;;
     match found with
     | None => ok []
     | Some (table, header_row_index, id_idx) =>
         header_row <- index (rows table) header_row_index ;;
         if len (stripped_cells header_row) <=? Z.of_nat (id_idx + 1 + 1)
         then ok []
         else analyze_rows id_idx (id_idx + 1) (id_idx + 1 + 1) char_limit
                (skipn (header_row_index + 1) (rows table)) []
     end)%result.
Proof.
  unfold analyze_document, bind, print, emit, lift, ret, rbind. simpl.
  destruct (find_bilingual_table (Document docx_path)) as [e|[[[t ri] ci]|]];
    [reflexivity| |reflexivity].
  simpl. destruct (index (rows t) ri) as [e|hr]; [reflexivity|].
  simpl. destruct (len (stripped_cells hr) <=? Z.of_nat (ci + 1 + 1));
    [reflexivity|].
  simpl. now destruct (analyze_rows _ _ _ _ _ _).
Qed.

(** C5: the locator never raises; it returns the sentinel exactly when no
    row of any table qualifies (a trimmed cell text equal to ["ID"] and at
    least three cells); otherwise it returns the first table that has a
    qualifying row, the index of the first such row in it and the first
    position of ["ID"] in that row. The analysis then reads, in every row
    after the header row, the identifier at that position, the source one
    column to its right and the target one column further. *)
Theorem first_header_row_wins (doc : Doc) :
  (exists found, find_bilingual_table doc = ok found)
  /\ (find_bilingual_table doc = ok None <->
      forall t r, In t (tables doc) -> In r (rows t) -> ~ header_like r)
  /\ (forall table row_index id_idx,
        find_bilingual_table doc = ok (Some (table, row_index, id_idx)) ->
        exists before after row,
          tables doc = before ++ table :: after
          /\ (forall t r, In t before -> In r (rows t) -> ~ header_like r)
          /\ nth_error (rows table) row_index = Some row
          /\ header_like row
          /\ (forall r, In r (firstn row_index (rows table)) -> ~ header_like r)
          /\ (exists c, nth_error (cells row) id_idx = Some c
                        /\ strip (c_text c) = ID)
          /\ (forall j c, (j < id_idx)%nat ->
                          nth_error (cells row) j = Some c ->
                          strip (c_text c) <> ID)
          /\ forall docx_path char_limit,
               (id_idx + 2 < length (cells row))%nat ->
               snd (analyze_document (fun _ => doc) docx_path char_limit)
               = analyze_rows id_idx (id_idx + 1) (id_idx + 2) char_limit
                   (skipn (row_index + 1) (rows table)) [])
  /\ (forall id_idx char_limit r v,
        analyze_row id_idx (id_idx + 1) (id_idx + 2) char_limit r = ok (Some v) ->
        exists id_cell src_cell trg_cell,
          nth_error (cells r) id_idx = Some id_cell
          /\ nth_error (cells r) (id_idx + 1) = Some src_cell
          /\ nth_error (cells r) (id_idx + 2) = Some trg_cell
          /\ v_id v = strip (c_text id_cell)
          /\ v_source v = c_text src_cell
          /\ v_target v = c_text trg_cell).
Proof.
  pose proof (find_in_tables_spec (tables doc)) as Hspec.
  unfold find_bilingual_table, table_found in *.
  split; [|split; [|split]].
  - destruct (find_in_tables (tables doc)) as [e|found]; [destruct Hspec|].
    now exists found.
  - destruct (find_in_tables (tables doc)) as [e|[[[t ri] ci]|]];
      [destruct Hspec| |].
    + split; [discriminate|]. intros Hnone. exfalso.
      destruct Hspec as (before & after & row & Hts & _ & Hnth & Hh & _).
      apply (Hnone t row); trivial.
      * rewrite Hts. apply in_or_app. right. now left.
      * now apply nth_error_In with ri.
    + split; trivial.
  - intros table ri ci Hfound. rewrite Hfound in Hspec.
    destruct Hspec as (before & after & row & Hts & Hb & Hnth & Hh & Hf & Hi & Hj).
    exists before, after, row.
    split; [exact Hts|]. split; [exact Hb|]. split; [exact Hnth|].
    split; [exact Hh|]. split; [exact Hf|]. split; [exact Hi|].
    split; [exact Hj|].
    intros docx_path char_limit Hlen.
    rewrite analyze_document_result. unfold find_bilingual_table.
    rewrite Hfound. simpl. unfold index. rewrite Hnth. simpl.
    unfold len, stripped_cells. rewrite length_map.
    destruct (Z.leb_spec (Z.of_nat (length (cells row))) (Z.of_nat (ci + 1 + 1)));
      [lia|].
    now replace (ci + 1 + 1)%nat with (ci + 2)%nat by lia.
  - intros ci char_limit r v Hrow.
    destruct (analyze_row_cells _ _ _ _ _ _ Hrow)
      as (ic & sc & tc & Hic & Hsc & Htc & Hv).
    destruct (Hv v eq_refl) as (H1 & H2 & H3 & _).
    exists ic, sc, tc. repeat split; trivial.
Qed.

Lemma first_header_row_wins_witness :
  find_bilingual_table scenario_A_doc
  = ok (Some ({| rows := rows_of_scenario_A |}, 0%nat, 0%nat))
  /\ exists row,
       nth_error rows_of_scenario_A 0 = Some row /\ header_like row
       /\ exists c, nth_error (cells row) 0 = Some c /\ strip (c_text c) = ID.
Proof.
  split; [reflexivity|].
  destruct (first_header_row_wins scenario_A_doc) as (_ & _ & H & _).
  destruct (H {| rows := rows_of_scenario_A |} 0%nat 0%nat eq_refl)
    as (b & a & r & _ & _ & H3 & H4 & _ & H6 & _).
  exists r. split; [exact H3|]. split; [exact H4|exact H6].
Defined.

(** ** Documents without a usable table *)

Lemma html_page_summary (char_limit : Z) (escaped_filename summary_text rows_block : text) :
  exists before after,
    html_page char_limit escaped_filename summary_text rows_block
    = before ++ str "<strong>" ++ summary_text ++ str "</strong>" ++ after
    /\ after = page_table_open ++ rows_block ++ page_footer.
Proof.
  exists (page_head char_limit ++ page_style ++ str "</style>
<script>" ++ page_script ++ page_header char_limit escaped_filename).
  exists (page_table_open ++ rows_block ++ page_footer).
  split; [|reflexivity]. unfold html_page, page_body.
  now rewrite <- !app_assoc.
Qed.

(** C6: when the locator finds no table, or the header row it finds has no
    cell two columns to the right of [ID], the analysis raises nothing and
    returns the empty list; the renderer, given the empty list, writes one
    page and raises nothing, and the summary of that page reads
    [NO SEGMENTS EXCEED THE LIMIT OF n CHARACTERS PER LINE.] with the limit
    for [n], followed by a table body without rows. *)
Theorem no_usable_table_empty_report (Document : text -> Doc)
  (docx_path : text) (char_limit : Z) (os : os_env)
  (output_path source_filename : text) :
  (find_bilingual_table (Document docx_path) = ok None
   \/ exists table row_index id_idx header,
        find_bilingual_table (Document docx_path)
        = ok (Some (table, row_index, id_idx))
        /\ nth_error (rows table) row_index = Some header
        /\ (length (cells header) <= id_idx + 2)%nat) ->
  snd (analyze_document Document docx_path char_limit) = ok []
  /\ exists page,
       build_html_report os [] output_path char_limit source_filename
       = ([Written output_path page;
           Printed (str "HTML report written to: " ++ output_path)], ok tt)
       /\ exists before,
            page = before ++ str "<strong>"
                     ++ (str "NO SEGMENTS EXCEED THE LIMIT OF "
                           ++ str_of_int char_limit
                           ++ str " CHARACTERS PER LINE.")
                     ++ str "</strong>"
                     ++ page_table_open ++ [] ++ page_footer.
Proof.
  intros Hcase. split.
  - rewrite analyze_document_result.
    destruct Hcase as [->|(t & ri & ci & hr & -> & Hnth & Hlen)];
      [reflexivity|].
    simpl. unfold index. rewrite Hnth. simpl.
    unfold len, stripped_cells. rewrite length_map.
    destruct (Z.leb_spec (Z.of_nat (length (cells hr))) (Z.of_nat (ci + 1 + 1)));
      [reflexivity|lia].
  - eexists. split; [reflexivity|].
    destruct (html_page_summary char_limit
                (html_escape (path_basename os source_filename))
                (summary (len (@nil violation)) char_limit) (join [LF] []))
      as (before & after & -> & ->).
    now exists before.
Qed.

Lemma no_usable_table_empty_report_witness :
  snd (analyze_document (fun _ => scenario_C_doc) (str "c.docx") 10) = ok [].
Proof.
  refine (proj1 (no_usable_table_empty_report (fun _ => scenario_C_doc)
                   (str "c.docx") 10
                   {| getcwd := []; listdir := fun _ => [];
                      path_join := fun a b => a ++ b;
                      path_isfile := fun _ => true;
                      path_splitext := fun p => (p, []);
                      path_basename := fun p => p |}
                   (str "c.html") (str "c.docx") _)).
  right.
  exists {| rows := [mk_row [str "Num"; str "ID"; str "Source"];
                     mk_row [str "1"; str "7"; str "Hallo"]] |}.
  exists 0%nat, 1%nat, (mk_row [str "Num"; str "ID"; str "Source"]).
  split; [reflexivity|]. split; [reflexivity|]. simpl. lia.
Defined.

(** ** Rows that are too short *)

Lemma analyze_row_raises_index_error (id_idx src_idx trg_idx : nat)
  (char_limit : Z) (row : Row) (e : exn) :
  analyze_row id_idx src_idx trg_idx char_limit row = inl e -> e = IndexError.
Proof.
  unfold analyze_row, index, throw.
  destruct (nth_error (cells row) id_idx); simpl; [|congruence].
  destruct (nth_error (cells row) src_idx); simpl; [|congruence].
  destruct (nth_error (cells row) trg_idx); simpl; [|congruence].
  destruct (filter _ _) as [|l ls] eqn:E; [discriminate|].
  destruct (py_max_spec (map len (l :: ls))) as (m & -> & _); [discriminate|].
  simpl. destruct (m <=? char_limit); discriminate.
Qed.

Lemma analyze_row_short (id_idx src_idx trg_idx : nat) (char_limit : Z)
  (row : Row) :
  (length (cells row) <= trg_idx)%nat ->
  analyze_row id_idx src_idx trg_idx char_limit row = throw IndexError.
Proof.
  intros H. apply nth_error_None in H. unfold analyze_row, index, throw.
  destruct (nth_error (cells row) id_idx); simpl; [|reflexivity].
  destruct (nth_error (cells row) src_idx); simpl; [|reflexivity].
  now rewrite H.
Qed.

Lemma analyze_rows_short (id_idx src_idx trg_idx : nat) (char_limit : Z)
  (rs : list Row) (acc : list violation) :
  Exists (fun row => (length (cells row) <= trg_idx)%nat) rs ->
  analyze_rows id_idx src_idx trg_idx char_limit rs acc = throw IndexError.
Proof.
  intros H. revert acc. induction H as [row rs Hrow|row rs _ IH]; intros acc; simpl.
  - now rewrite analyze_row_short.
  - destruct (analyze_row id_idx src_idx trg_idx char_limit row) as [e|r] eqn:E.
    + apply analyze_row_raises_index_error in E. now subst.
    + simpl. destruct r; apply IH.
Qed.

(** C7, as stated, fails: a table whose second row is too short and a table
    whose third row is too short end the analysis with the same messages
    and the same exception, so nothing the analysis surfaces tells the
    position of the row. *)
Lemma short_row_error_names_no_row :
  snd (analyze_document (fun _ => short_row_first) (str "a.docx") 10)
  = throw IndexError
  /\ analyze_document (fun _ => short_row_first) (str "a.docx") 10
     = analyze_document (fun _ => short_row_second) (str "a.docx") 10
  /\ ~ (exists position_of : Py (list violation) -> nat,
          position_of (analyze_document (fun _ => short_row_first) (str "a.docx") 10)
          = 1%nat
          /\ position_of (analyze_document (fun _ => short_row_second) (str "a.docx") 10)
             = 2%nat).
Proof.
  assert (E : analyze_document (fun _ => short_row_first) (str "a.docx") 10
              = analyze_document (fun _ => short_row_second) (str "a.docx") 10)
    by (vm_compute; reflexivity).
  split; [vm_compute; reflexivity|]. split; [exact E|].
  intros (f & H1 & H2). rewrite E in H1. congruence.
Qed.

(** C7, amended: when a row after the header row has fewer cells than the
    target column needs, the analysis ends with the [IndexError] of the cell
    access: it returns no violation list and does not skip the row. The
    exception holds no row position. *)
Theorem short_row_aborts_analysis (Document : text -> Doc) (docx_path : text)
  (char_limit : Z) (table : Table) (row_index id_idx : nat) (header : Row) :
  find_bilingual_table (Document docx_path) = ok (Some (table, row_index, id_idx)) ->
  nth_error (rows table) row_index = Some header ->
  (id_idx + 2 < length (cells header))%nat ->
  Exists (fun row => (length (cells row) <= id_idx + 2)%nat)
    (skipn (row_index + 1) (rows table)) ->
  snd (analyze_document Document docx_path char_limit) = throw IndexError.
Proof.
  intros Hfound Hnth Hlen Hshort. rewrite analyze_document_result, Hfound.
  simpl. unfold index. rewrite Hnth. simpl.
  unfold len, stripped_cells. rewrite length_map.
  destruct (Z.leb_spec (Z.of_nat (length (cells header))) (Z.of_nat (id_idx + 1 + 1)));
    [lia|].
  apply analyze_rows_short.
  now replace (id_idx + 1 + 1)%nat with (id_idx + 2)%nat by lia.
Qed.

Lemma short_row_aborts_analysis_witness :
  snd (analyze_document (fun _ => short_row_second) (str "a.docx") 10)
  = throw IndexError.
Proof.
  apply (short_row_aborts_analysis (fun _ => short_row_second) (str "a.docx") 10
           {| rows := [header_row;
                       mk_row [str "1"; str "eins"; str "one"];
                       mk_row [str "2"; str "zwei"]] |}
           0%nat 0%nat header_row).
  - reflexivity.
  - reflexivity.
  - simpl. lia.
  - simpl. apply Exists_cons_tl. apply Exists_cons_hd. simpl. lia.
Defined.

(** ** The prompt for the limit *)

Lemma fst_bind {A B : Type} (m : Py A) (f : A -> Py B) :
  fst (bind m f)
  = fst m ++ match snd m with
             | inl _ => []
             | inr a => fst (f a)
             end.
Proof.
  destruct m as [out [e|a]]; simpl; [now rewrite app_nil_r|].
  now destruct (f a).
Qed.

Lemma bind_log {A B : Type} (l : list event) (a : A) (f : A -> Py B) :
  bind (l, inr a) f = (l ++ fst (f a), snd (f a)).
Proof. simpl. now destruct (f a). Qed.

Lemma bind_prints {A B : Type} (a : text) (out : list text) (x : A) (b : text)
  (k : A -> Py B) :
  bind (print a) (fun _ =>
    bind (map Printed out, inr x) (fun y => bind (print b) (fun _ => k y)))
  = bind (map Printed (a :: out ++ [b]), ok tt) (fun _ => k x).
Proof.
  unfold print, emit, ok, bind. destruct (k x) as [l r].
  rewrite map_cons, map_app. simpl. now rewrite <- app_assoc.
Qed.

Lemma no_work_in_prints (lines : list text) :
  existsb is_work (map Printed lines) = false.
Proof. induction lines; simpl; auto. Qed.

Lemma no_prompt_in_prints (lines : list text) (q : text) :
  ~ In (Prompted q) (map Printed lines).
Proof. intros H. apply in_map_iff in H as (l & E & _). discriminate. Qed.

Lemma analyze_document_loads (Document : text -> Doc) (docx_path : text)
  (char_limit : Z) :
  In (Loaded docx_path) (fst (analyze_document Document docx_path char_limit)).
Proof.
  unfold analyze_document. rewrite !fst_bind. simpl. right. now left.
Qed.

(** [main] either stops before it asks for the limit, having only printed,
    or it asks and goes on with the line it reads. *)
Lemma main_shape (w : world) :
  (exists lines r, main w = (map Printed lines, r))
  \/ exists lines Document input_path,
       main w
       = bind (map Printed lines, ok tt) (fun _ =>
           bind (input w limit_prompt) (fun line =>
             match builtin_int w (strip line) with
             | inl ValueError =>
                 print (str "Error: character limit must be an integer.")
             | inl e => raise e
             | inr char_limit =>
                 run_with_limit (os w) Document input_path char_limit
             end)).
Proof.
  unfold main, ensure_python_docx.
  set (hdr := str "=== memoQ Line Length Checker - v" ++ VERSION
                ++ str " (DOCX + HTML) ===").
  destruct (python_docx w) as [out [e|D]]; simpl fst; simpl snd.
  { left. exists (hdr :: out), (inl e). reflexivity. }
  set (chosen := match filter _ _, filter _ _ with
                 | f :: _, _ => Some f
                 | [], f :: _ => Some f
                 | [], [] => None
                 end).
  destruct chosen as [f|].
  2:{ left. unfold bind, print, emit. simpl.
      eexists (hdr :: out ++ [_]), _. simpl. rewrite map_app. reflexivity. }
  set (input_path := path_join (os w) (getcwd (os w)) f).
  destruct (path_isfile (os w) input_path); simpl negb; cbv iota.
  2:{ left. unfold bind, print, emit. simpl.
      eexists (hdr :: out ++ [_; _]), _. simpl. rewrite map_app. reflexivity. }
  destruct (text_eqb _ (str ".docx")); simpl negb; cbv iota.
  2:{ left. unfold bind, print, emit. simpl.
      eexists (hdr :: out ++ [_; _]), _. simpl. rewrite map_app. reflexivity. }
  right. eexists _, D, input_path.
  etransitivity; [apply bind_prints|]. reflexivity.
Qed.

(** C8, as stated, fails: the lines ["0"] and ["-5"] are read as the
    integers 0 and -5, the document is loaded and analyzed with them and a
    report is written. *)
Lemma zero_and_negative_limits_are_analyzed :
  builtin_int (sample_world (str "0")) (strip (str "0")) = ok 0
  /\ existsb is_work (fst (main (sample_world (str "0")))) = true
  /\ existsb (writes_to (str "/work/job_length_report_0.html"))
       (fst (main (sample_world (str "0")))) = true
  /\ builtin_int (sample_world (str "-5")) (strip (str "-5")) = ok (-5)
  /\ existsb (writes_to (str "/work/job_length_report_-5.html"))
       (fst (main (sample_world (str "-5")))) = true
  /\ ~ (forall line,
          (forall n, builtin_int (sample_world line) (strip line) = ok n ->
                     n <= 0) ->
          existsb is_work (fst (main (sample_world line))) = false).
Proof.
  split; [reflexivity|]. split; [vm_compute; reflexivity|].
  split; [vm_compute; reflexivity|]. split; [reflexivity|].
  split; [vm_compute; reflexivity|].
  intros H. specialize (H (str "0")).
  assert (E : existsb is_work (fst (main (sample_world (str "0")))) = true)
    by (vm_compute; reflexivity).
  rewrite H in E; [discriminate|].
  intros n Hn. vm_compute in Hn. injection Hn as <-. lia.
Qed.

(** C8, amended: whatever the built-in [int] accepts, a line for which it
    raises [ValueError] is rejected before the analysis: no document is
    loaded and no report is written. Every integer it returns, zero and
    the negative ones included, is accepted: once the prompt is reached,
    [main] goes on with the analysis and the report for that limit. *)
Theorem limit_must_parse_as_integer (w : world) (line : text) :
  stdin_line w = Some line ->
  (builtin_int w (strip line) = throw ValueError ->
   existsb is_work (fst (main w)) = false)
  /\ (forall n, builtin_int w (strip line) = ok n ->
        In (Prompted limit_prompt) (fst (main w)) ->
        exists lines Document input_path,
          main w
          = bind (map Printed lines ++ [Prompted limit_prompt], ok tt)
              (fun _ => run_with_limit (os w) Document input_path n)
          /\ In (Loaded input_path) (fst (main w))).
Proof.
  intros Hline.
  destruct (main_shape w) as [(lines & r & E)|(lines & D & p & E)].
  - rewrite E. simpl. split.
    + intros _. apply no_work_in_prints.
    + intros n _ H. now apply no_prompt_in_prints in H.
  - unfold input in E. rewrite Hline in E.
    change (bind (emit (Prompted limit_prompt)) (fun _ => ret line))
      with ([Prompted limit_prompt], @inr exn text line) in E.
    rewrite (bind_log [Prompted limit_prompt] line) in E. cbv beta in E.
    split.
    + intros Hint. rewrite E, Hint. unfold ok, print, emit, throw.
      rewrite bind_log. simpl fst.
      rewrite existsb_app, no_work_in_prints. reflexivity.
    + intros n Hint _. exists lines, D, p. rewrite Hint in E.
      assert (E' : main w
                   = bind (map Printed lines ++ [Prompted limit_prompt], ok tt)
                       (fun _ => run_with_limit (os w) D p n)).
      { rewrite E. unfold ok. rewrite !bind_log. simpl fst. simpl snd.
        now rewrite <- !app_assoc. }
      split; [exact E'|]. rewrite E'. unfold ok. rewrite bind_log.
      simpl fst. apply in_or_app. right.
      unfold run_with_limit. rewrite fst_bind. apply in_or_app. left.
      apply analyze_document_loads.
Qed.

Lemma limit_must_parse_as_integer_witness :
  existsb is_work (fst (main (sample_world (str "ten")))) = false
  /\ exists lines Document input_path,
       main (sample_world (str "-5"))
       = bind (map Printed lines ++ [Prompted limit_prompt], ok tt)
           (fun _ => run_with_limit sample_os Document input_path (-5))
       /\ In (Loaded input_path) (fst (main (sample_world (str "-5")))).
Proof.
  split.
  - apply (proj1 (limit_must_parse_as_integer (sample_world (str "ten"))
                    (str "ten") eq_refl)).
    reflexivity.
  - apply (proj2 (limit_must_parse_as_integer (sample_world (str "-5"))
                    (str "-5") eq_refl) (-5)).
    + reflexivity.
    + vm_compute. do 3 right. left. reflexivity.
Defined.

(** ** The hidden copy of the rendering and the reset button *)

Lemma decode_from_skip (a b : text) :
  decode_from (length a) (a ++ b) = decode_from 0 b.
Proof.
  induction a as [|x a IH]; simpl; [|exact IH].
  destruct b; reflexivity.
Qed.

Lemma attribute_value_escape_char (x : char) (rest : text) :
  attribute_value (escape_char x ++ rest) = x :: attribute_value rest.
Proof.
  unfold attribute_value, escape_char.
  change (ch "&") with 38%N. change (ch "<") with 60%N.
  change (ch ">") with 62%N. change (ch "'") with 39%N.
  destruct (N.eqb_spec x 38) as [->|H1];
    [exact (f_equal (cons 38%N) (decode_from_skip (str "amp;") rest))|].
  destruct (N.eqb_spec x 60) as [->|H2];
    [exact (f_equal (cons 60%N) (decode_from_skip (str "lt;") rest))|].
  destruct (N.eqb_spec x 62) as [->|H3];
    [exact (f_equal (cons 62%N) (decode_from_skip (str "gt;") rest))|].
  destruct (N.eqb_spec x 34) as [->|H4];
    [exact (f_equal (cons 34%N) (decode_from_skip (str "quot;") rest))|].
  destruct (N.eqb_spec x 39) as [->|H5];
    [exact (f_equal (cons 39%N) (decode_from_skip (str "#x27;") rest))|].
  apply N.eqb_neq in H1. simpl. now rewrite H1.
Qed.

(** Reading the attribute gives back what was escaped into it. *)
Lemma attribute_value_html_escape (s : text) :
  attribute_value (html_escape s) = s.
Proof.
  rewrite html_escape_chars. induction s as [|x s IH]; [reflexivity|].
  simpl. rewrite attribute_value_escape_char. now rewrite IH.
Qed.

Lemma escape_char_no_markup (y x : char) :
  In x (escape_char y) ->
  x <> ch "<" /\ x <> ch ">" /\ x <> 34%N /\ x <> ch "'".
Proof.
  unfold escape_char.
  change (ch "&") with 38%N. change (ch "<") with 60%N.
  change (ch ">") with 62%N. change (ch "'") with 39%N.
  destruct (N.eqb_spec y 38) as [->|H1].
  { simpl. intros H. repeat (destruct H as [<-|H]; [repeat split; discriminate|]).
    destruct H. }
  destruct (N.eqb_spec y 60) as [->|H2].
  { simpl. intros H. repeat (destruct H as [<-|H]; [repeat split; discriminate|]).
    destruct H. }
  destruct (N.eqb_spec y 62) as [->|H3].
  { simpl. intros H. repeat (destruct H as [<-|H]; [repeat split; discriminate|]).
    destruct H. }
  destruct (N.eqb_spec y 34) as [->|H4].
  { simpl. intros H. repeat (destruct H as [<-|H]; [repeat split; discriminate|]).
    destruct H. }
  destruct (N.eqb_spec y 39) as [->|H5].
  { simpl. intros H. repeat (destruct H as [<-|H]; [repeat split; discriminate|]).
    destruct H. }
  intros [<-|[]]. repeat split; assumption.
Qed.

Lemma html_escape_no_markup (s : text) (x : char) :
  In x (html_escape s) -> x <> 60%N /\ x <> 34%N.
Proof.
  rewrite html_escape_chars. intros H.
  apply in_flat_map in H as (y & _ & Hy).
  destruct (escape_char_no_markup y x Hy) as (H1 & _ & H3 & _).
  split; assumption.
Qed.

(** *** Reading the attribute from the markup *)

Lemma text_after_miss (pattern : text) (x : char) (s : text) :
  startswith (x :: s) pattern = false ->
  text_after pattern (x :: s) = text_after pattern s.
Proof. intros H. cbn [text_after]. now rewrite H. Qed.

Lemma text_after_skip (p0 : char) (pattern u rest : text) :
  hd_error pattern = Some p0 -> ~ In p0 u ->
  text_after pattern (u ++ rest) = text_after pattern rest.
Proof.
  destruct pattern as [|y pattern]; [discriminate|].
  intros E. injection E as ->.
  induction u as [|x u IH]; [reflexivity|]. intros H.
  change ((x :: u) ++ rest) with (x :: u ++ rest).
  rewrite text_after_miss.
  - apply IH. intros Hin. apply H. now right.
  - cbn [startswith]. destruct (N.eqb_spec x p0) as [->|]; [|reflexivity].
    exfalso. apply H. now left.
Qed.

Lemma differs_startswith (s p rest : text) :
  differs s p = true -> startswith (s ++ rest) p = false.
Proof.
  revert s. induction p as [|y p IH]; intros [|x s]; simpl; try discriminate.
  destruct (N.eqb x y); [apply IH|reflexivity].
Qed.

Lemma text_after_prefix (pattern prefix rest : text) :
  starts_nowhere pattern prefix = true ->
  text_after pattern (prefix ++ rest) = text_after pattern rest.
Proof.
  induction prefix as [|x prefix IH]; [reflexivity|]. intros H.
  cbn [starts_nowhere] in H. apply andb_true_iff in H as [Hd Hn].
  change ((x :: prefix) ++ rest) with (x :: prefix ++ rest).
  rewrite text_after_miss; [now apply IH|].
  exact (differs_startswith (x :: prefix) pattern rest Hd).
Qed.

Lemma startswith_app (p rest : text) : startswith (p ++ rest) p = true.
Proof.
  induction p as [|y p IH]; [reflexivity|]. simpl.
  now rewrite N.eqb_refl, IH.
Qed.

Lemma skipn_length_app (p rest : text) : skipn (length p) (p ++ rest) = rest.
Proof. induction p as [|y p IH]; [reflexivity|exact IH]. Qed.

Lemma text_after_hit (pattern rest : text) :
  text_after pattern (pattern ++ rest) = Some rest.
Proof.
  destruct pattern as [|y p]; [now destruct rest|].
  change ((y :: p) ++ rest) with (y :: p ++ rest). cbn [text_after].
  change (y :: p ++ rest) with ((y :: p) ++ rest).
  now rewrite startswith_app, skipn_length_app.
Qed.

Lemma text_before_stop (c : char) (u rest : text) :
  ~ In c u -> text_before c (u ++ c :: rest) = u.
Proof.
  induction u as [|x u IH]; intros H; simpl.
  - now rewrite N.eqb_refl.
  - destruct (N.eqb_spec x c) as [->|]; [exfalso; apply H; now left|].
    rewrite IH; [reflexivity|]. intros Hin. apply H. now right.
Qed.

(** A row, cut at the escaped texts and at the tag of the container. *)
Lemma table_row_shape (id_html src_html data_original_html target_html
                         line_length_html segment_length_html : text) :
  exists p1 p2 p3 rest,
    table_row id_html src_html (target_cell data_original_html target_html)
      line_length_html segment_length_html
    = p1 ++ id_html ++ p2 ++ src_html ++ p3 ++ container_tag
        ++ data_original_html ++ 34%N :: rest
    /\ starts_nowhere container_tag p1 = true
    /\ starts_nowhere container_tag p2 = true
    /\ starts_nowhere container_tag p3 = true.
Proof.
  exists (str "
        <tr>
            <td class=" ++ quoted "cell-id" ++ str ">").
  exists (str "</td>
            <td class=" ++ quoted "cell-source" ++ str ">").
  exists (str "</td>
            <td class=" ++ quoted "cell-target" ++ str ">" ++ str "
        ").
  exists (str ">
            <div class=" ++
  quoted "target-text" ++ str " contenteditable=" ++ quoted "false" ++
  str ">
                " ++
  target_html ++
  str "
            </div>
            <div class=" ++
  quoted "target-actions" ++
  str ">
                <button class=" ++
  quoted "icon-btn edit-btn" ++ str " title=" ++ quoted "Toggle edit" ++
  str ">" ++ [9999%N] ++ [65039%N] ++
  str "</button>
                <button class=" ++
  quoted "icon-btn reset-btn" ++ str " title=" ++
  quoted "Reset to original" ++ str ">" ++ [10226%N] ++
  str "</button>
            </div>
        </div>
        " ++
  str "</td>
            <td class=" ++
  quoted "cell-maxlen" ++ str ">" ++ line_length_html ++
  str "</td>
            <td class=" ++
  quoted "cell-linelens" ++ str ">" ++ segment_length_html ++
  str "</td>
        </tr>
        ").
  split; [|split; [|split]]; [|reflexivity|reflexivity|reflexivity].
  unfold table_row, target_cell, container_tag.
  change (str "
        <div class=") with (str "
        " ++ str "<div class=").
  change (34%N :: ?r) with (dq ++ r).
  rewrite <- !app_assoc. reflexivity.
Qed.

Lemma row_attribute (id_html src_html h line_length_html segment_length_html
                       : text) :
  data_original_html_of
    (table_row (html_escape id_html) (html_escape src_html)
       (target_cell (html_escape h) h) line_length_html segment_length_html)
  = Some h.
Proof.
  destruct (table_row_shape (html_escape id_html) (html_escape src_html)
              (html_escape h) h line_length_html segment_length_html)
    as (p1 & p2 & p3 & rest & -> & H1 & H2 & H3).
  assert (Hskip : forall u rest,
             text_after container_tag (html_escape u ++ rest)
             = text_after container_tag rest).
  { intros u r. apply (text_after_skip 60%N); [reflexivity|].
    intros Hin. now destruct (html_escape_no_markup _ _ Hin). }
  unfold data_original_html_of.
  rewrite (text_after_prefix _ p1) by exact H1. rewrite Hskip.
  rewrite (text_after_prefix _ p2) by exact H2. rewrite Hskip.
  rewrite (text_after_prefix _ p3) by exact H3.
  rewrite text_after_hit.
  rewrite text_before_stop
    by (intros Hin; now destruct (html_escape_no_markup _ _ Hin)).
  now rewrite attribute_value_html_escape.
Qed.

(** *** The handler on one target cell *)

Lemma script_is_handler : page_script = Js.print Js.handler.
Proof. vm_compute. reflexivity. Qed.

(** What a click does to the container, by the element it lands on. *)
Lemma click_handler (target : Js.node) (c : container) :
  Js.click Js.handler target c
  = Some match target with
         | Js.EditButton => click_edit c
         | Js.ResetButton => click_reset c
         | _ => c
         end.
Proof.
  destruct c as [[h|] inner [|]]; destruct target; reflexivity.
Qed.

Lemma perform_keeps_attribute (c : container) (g : gesture) :
  exists c', perform c g = Some c'
             /\ data_original_html_attr c' = data_original_html_attr c.
Proof.
  destruct g as [target|new]; simpl.
  - rewrite click_handler. eexists. split; [reflexivity|].
    destruct target; try reflexivity.
    unfold click_edit. now destruct (contenteditable c).
  - eexists. split; [reflexivity|]. now destruct (contenteditable c).
Qed.

Lemma perform_all_keeps_attribute (gestures : list gesture) (c : container) :
  exists c', perform_all gestures c = Some c'
             /\ data_original_html_attr c' = data_original_html_attr c.
Proof.
  revert c. induction gestures as [|g gestures IH]; intros c.
  - now exists c.
  - destruct (perform_keeps_attribute c g) as (c1 & E1 & H1).
    destruct (IH c1) as (c' & E' & H'). exists c'. simpl. rewrite E1.
    split; [exact E'|congruence].
Qed.

Lemma infix_here {A : Type} (m post : list A) : m ++ post = [] ++ m ++ post.
Proof. reflexivity. Qed.

Lemma infix_later {A : Type} (x rest b m post : list A) :
  rest = b ++ m ++ post -> x ++ rest = (x ++ b) ++ m ++ post.
Proof. intros ->. now rewrite app_assoc. Qed.

Lemma table_row_holds_cell
  (id_html src_html target_cell_html line_length_html segment_length_html : text) :
  exists before after,
    table_row id_html src_html target_cell_html line_length_html
      segment_length_html
    = before ++ target_cell_html ++ after.
Proof.
  do 2 eexists. unfold table_row.
  repeat (first [apply infix_here | apply infix_later]).
Qed.

Lemma render_rows_each (violations : list violation) (acc rs : list text) :
  render_rows violations acc = ok rs ->
  exists rendered,
    rs = acc ++ rendered
    /\ Forall2 (fun v row => render_row v = ok row) violations rendered.
Proof.
  revert acc. induction violations as [|v vs IH]; intros acc; simpl.
  - intros H; injection H as <-. exists []. split; [|constructor].
    now rewrite app_nil_r.
  - destruct (render_row v) as [e|row] eqn:E; [discriminate|]. simpl.
    intros H. apply IH in H as (rendered & -> & HF).
    exists (row :: rendered). split; [|now constructor].
    now rewrite <- app_assoc.
Qed.

Lemma target_cell_holds_reset_button (data_original_html target_html : text) :
  exists before after,
    target_cell data_original_html target_html
    = before ++ reset_button ++ after.
Proof.
  exists (str "
        <div class=" ++
  quoted "target-container" ++ str " data-original-html=" ++ dq ++
  data_original_html ++ dq ++
  str ">
            <div class=" ++
  quoted "target-text" ++ str " contenteditable=" ++ quoted "false" ++
  str ">
                " ++
  target_html ++
  str "
            </div>
            <div class=" ++
  quoted "target-actions" ++
  str ">
                <button class=" ++
  quoted "icon-btn edit-btn" ++ str " title=" ++ quoted "Toggle edit" ++
  str ">" ++ [9999%N] ++ [65039%N] ++
  str "</button>
                ").
  exists (str "
            </div>
        </div>
        ").
  unfold target_cell, reset_button. rewrite <- !app_assoc. reflexivity.
Qed.

Lemma join_holds (sep : text) (parts : list text) (p : text) :
  In p parts -> exists before after, join sep parts = before ++ p ++ after.
Proof.
  induction parts as [|q parts IH]; [intros []|]. intros [->|Hin].
  - destruct parts as [|q' parts].
    + exists [], []. simpl. now rewrite app_nil_r.
    + exists [], (sep ++ join sep (q' :: parts)). reflexivity.
  - destruct (IH Hin) as (b & a & E). destruct parts as [|q' parts];
      [destruct Hin|].
    exists (q ++ sep ++ b), a.
    change (join sep (q :: q' :: parts))
      with (q ++ sep ++ join sep (q' :: parts)).
    rewrite E. now rewrite <- !app_assoc.
Qed.

(** The page holds the script between its script tags and, further down,
    every row. *)
Lemma html_page_holds (char_limit : Z) (escaped_filename summary_text : text)
  (rows_html : list text) (row : text) :
  In row rows_html ->
  page_holds
    (html_page char_limit escaped_filename summary_text (join [LF] rows_html))
    page_script row.
Proof.
  intros Hin. destruct (join_holds [LF] rows_html row Hin) as (b & a & E).
  exists (page_head char_limit ++ page_style ++ str "</style>
").
  exists (skipn 9 (page_header char_limit escaped_filename)
            ++ str "<strong>" ++ summary_text ++ str "</strong>"
            ++ page_table_open ++ b).
  exists (a ++ page_footer).
  assert (Hh : page_header char_limit escaped_filename
               = str "</script>"
                   ++ skipn 9 (page_header char_limit escaped_filename))
    by reflexivity.
  set (rest := skipn 9 (page_header char_limit escaped_filename)) in *.
  unfold html_page, page_body. rewrite E, Hh.
  change (str "</style>
<script>") with (str "</style>
" ++ str "<script>").
  now rewrite <- !app_assoc.
Qed.

(** C9: the page that [build_html_report] writes holds, between its script
    tags, the text of the click handler, and further down every row. Every
    row holds the target cell of its record with the reset button, and the
    attribute [data-original-html] of that cell holds the escaping of the
    highlighted rendering of the record; the browser reads the rendering
    itself back from the row. The handler, run on a click on the edit button, flips the
    editing state, and on a click on the reset button assigns the attribute
    to the text; so, on a container with the attribute read from the row,
    after any clicks (on the edit button, on the reset button or anywhere
    else) and any typing, a click on the reset button puts exactly the
    rendering into the target text and switches editing off. *)
Theorem reset_restores_rendering (violations : list violation)
  (rows_html : list text) (gestures : list gesture) :
  render_rows violations [] = ok rows_html ->
  page_script = Js.print Js.handler
  /\ (forall os output_path char_limit source_filename,
        exists page,
          In (Written output_path page)
            (fst (build_html_report os violations output_path char_limit
                    source_filename))
          /\ forall row, In row rows_html ->
                         page_holds page (Js.print Js.handler) row)
  /\ (forall c,
        Js.click Js.handler Js.EditButton c = Some (click_edit c)
        /\ Js.click Js.handler Js.ResetButton c = Some (click_reset c))
  /\ Forall2 (hidden_copy_restores gestures) violations rows_html.
Proof.
  intros H. split; [exact script_is_handler|].
  split; [|split].
  - intros os output_path char_limit source_filename.
    unfold build_html_report. rewrite H. eexists. split.
    + simpl. left. reflexivity.
    + intros row Hin. rewrite <- script_is_handler. now apply html_page_holds.
  - intros c. now rewrite !click_handler.
  - apply render_rows_each in H as (rendered & -> & HF). simpl.
    induction HF as [|v row vs rs Hrow _ IH]; constructor; [|exact IH].
    unfold hidden_copy_restores. cbv zeta.
    unfold render_row in Hrow.
    destruct (match v_id v with [] => ok [] | _ => _ end) as [e|id_short];
      [discriminate|].
    simpl in Hrow. injection Hrow as <-.
    split; [|split; [|split; [|split; [|split]]]].
    + apply table_row_holds_cell.
    + eexists. unfold target_cell. now rewrite <- app_assoc.
    + apply attribute_value_html_escape.
    + apply row_attribute.
    + destruct (table_row_holds_cell (html_escape id_short)
                  (html_escape (v_source v))
                  (target_cell (html_escape (v_highlighted_target_html v))
                     (v_highlighted_target_html v))
                  (str_of_int (v_max_len v)) (str_of_int (v_segment_len v)))
        as (b1 & a1 & ->).
      destruct (target_cell_holds_reset_button
                  (html_escape (v_highlighted_target_html v))
                  (v_highlighted_target_html v)) as (b2 & a2 & ->).
      exists (b1 ++ b2), (a2 ++ a1). now rewrite <- !app_assoc.
    + intros c Hc. rewrite row_attribute in Hc.
      destruct (perform_all_keeps_attribute gestures c) as (c' & E' & H').
      exists c', (click_reset c'). rewrite Hc in H'.
      split; [exact E'|]. split; [exact H'|].
      split; [apply click_handler|].
      unfold click_reset. simpl. rewrite H'. repeat split.
Qed.

Lemma reset_restores_rendering_witness :
  exists v row,
    snd (analyze_document (fun _ => scenario_A_doc) (str "a.docx") 10) = ok [v]
    /\ render_rows [v] [] = ok [row]
    /\ Forall2 (hidden_copy_restores
                  [Click Js.EditButton; Typing (str "edited");
                   Click Js.TargetText; Click Js.EditButton])
         [v] [row].
Proof.
  eexists. eexists. split; [vm_compute; reflexivity|].
  split; [vm_compute; reflexivity|].
  apply reset_restores_rendering. vm_compute. reflexivity.
Defined.

(** * Further properties *)

(** ** Trimming *)

Lemma lstrip_head (s : text) :
  lstrip s = [] \/ exists c t, lstrip s = c :: t /\ isspace c = false.
Proof.
  induction s as [|x s IH]; [now left|]. simpl.
  destruct (isspace x) eqn:E; [exact IH|]. right. now exists x, s.
Qed.

Lemma lstrip_snoc (w : text) (c : char) :
  isspace c = false -> exists u, lstrip (w ++ [c]) = u ++ [c].
Proof.
  intros Hc. induction w as [|x w IH]; simpl.
  - rewrite Hc. now exists [].
  - destruct (isspace x); [exact IH|]. now exists (x :: w).
Qed.

(** A trimmed text is empty or begins and ends with a character that is not
    whitespace. *)
Lemma strip_shape (s : text) :
  strip s = []
  \/ (exists c u, strip s = c :: u /\ isspace c = false)
     /\ (exists u d, strip s = u ++ [d] /\ isspace d = false).
Proof.
  unfold strip, rstrip.
  destruct (lstrip_head s) as [->|(c & t & -> & Hc)]; [now left|]. right.
  simpl rev. split.
  - destruct (lstrip_snoc (rev t) c Hc) as (u & ->).
    rewrite rev_app_distr. simpl. now exists c, (rev u).
  - destruct (lstrip_head (rev t ++ [c])) as [E|(d & t' & E & Hd)].
    + destruct (lstrip_snoc (rev t) c Hc) as (u & Hu). rewrite Hu in E.
      now destruct u.
    + rewrite E. simpl. now exists (rev t'), d.
Qed.

Lemma strip_fixed (l : text) (c d : char) (u u' : text) :
  l = c :: u -> isspace c = false -> l = u' ++ [d] -> isspace d = false ->
  strip l = l.
Proof.
  intros Hl Hc Hl' Hd. unfold strip, rstrip.
  assert (E : lstrip l = l) by (rewrite Hl; simpl; now rewrite Hc).
  rewrite E. rewrite Hl' at 1. rewrite rev_app_distr. simpl. rewrite Hd.
  change (d :: rev u') with (rev [d] ++ rev u'). rewrite <- rev_app_distr.
  rewrite rev_involutive. now rewrite <- Hl'.
Qed.

Lemma strip_idempotent (s : text) : strip (strip s) = strip s.
Proof.
  destruct (strip_shape s) as [->|((c & u & E & Hc) & (u' & d & E' & Hd))];
    [reflexivity|].
  now apply (strip_fixed _ c d u u').
Qed.

(** ** The loop over the rows *)

Lemma analyze_rows_acc (id_idx src_idx trg_idx : nat) (char_limit : Z)
  (rs : list Row) (acc : list violation) :
  analyze_rows id_idx src_idx trg_idx char_limit rs acc
  = (vs <- analyze_rows id_idx src_idx trg_idx char_limit rs [] ;;
     ok (acc ++ vs))%result.
Proof.
  revert acc. induction rs as [|row rs IH]; intros acc; simpl.
  - now rewrite app_nil_r.
  - destruct (analyze_row id_idx src_idx trg_idx char_limit row) as [e|[v|]];
      simpl; [reflexivity| |apply IH].
    rewrite (IH (acc ++ [v])), (IH [v]).
    destruct (analyze_rows id_idx src_idx trg_idx char_limit rs []); simpl;
      [reflexivity|]. now rewrite <- app_assoc.
Qed.

Lemma analyze_rows_cons (id_idx src_idx trg_idx : nat) (char_limit : Z)
  (row : Row) (rs : list Row) :
  analyze_rows id_idx src_idx trg_idx char_limit (row :: rs) []
  = (r <- analyze_row id_idx src_idx trg_idx char_limit row ;;
     vs <- analyze_rows id_idx src_idx trg_idx char_limit rs [] ;;
     ok (record_of r ++ vs))%result.
Proof.
  simpl. destruct (analyze_row id_idx src_idx trg_idx char_limit row) as [e|[v|]];
    simpl; [reflexivity| |].
  - apply analyze_rows_acc.
  - now destruct (analyze_rows id_idx src_idx trg_idx char_limit rs []).
Qed.

(** X1: the rows are analyzed one after another and independently: the
    analysis of a list of rows followed by a second list gives the records
    of the first list followed by the records of the second, each as if
    analyzed alone; an exception in the first list ends the analysis before
    the second is read. *)
Theorem rows_are_analyzed_independently (id_idx src_idx trg_idx : nat)
  (char_limit : Z) (rs1 rs2 : list Row) :
  analyze_rows id_idx src_idx trg_idx char_limit (rs1 ++ rs2) []
  = (vs1 <- analyze_rows id_idx src_idx trg_idx char_limit rs1 [] ;;
     vs2 <- analyze_rows id_idx src_idx trg_idx char_limit rs2 [] ;;
     ok (vs1 ++ vs2))%result.
Proof.
  induction rs1 as [|row rs1 IH].
  - simpl. now destruct (analyze_rows id_idx src_idx trg_idx char_limit rs2 []).
  - change ((row :: rs1) ++ rs2) with (row :: rs1 ++ rs2).
    rewrite !analyze_rows_cons, IH.
    destruct (analyze_row id_idx src_idx trg_idx char_limit row) as [e|r];
      simpl; [reflexivity|].
    destruct (analyze_rows id_idx src_idx trg_idx char_limit rs1 []) as [e|vs1];
      simpl; [reflexivity|].
    destruct (analyze_rows id_idx src_idx trg_idx char_limit rs2 []) as [e|vs2];
      simpl; [reflexivity|]. now rewrite app_assoc.
Qed.

(** ** What every record holds *)

Lemma counted_line_not_empty (target l : text) :
  In l (counted_lines target) -> l <> [].
Proof.
  unfold counted_lines. intros H. apply filter_In in H as [_ H].
  intros ->. discriminate.
Qed.

Lemma sum_bounds_member (l : list Z) (m : Z) :
  Forall (fun n => 0 <= n) l -> In m l -> m <= fold_right Z.add 0 l.
Proof.
  induction 1 as [|x l Hx Hl IH]; [intros []|].
  assert (0 <= fold_right Z.add 0 l).
  { clear IH. induction Hl; simpl; lia. }
  simpl. intros [->|Hin]; [lia|]. specialize (IH Hin). lia.
Qed.

(** X2: every record the analyzer emits has a maximal line length above the
    limit and not above the segment length, holds at least one line length,
    all of them at least 1 with the maximal line length among them, and an
    identifier without whitespace at either end. *)
Theorem emitted_record_invariants (id_idx src_idx trg_idx : nat)
  (char_limit : Z) (row : Row) (v : violation) :
  analyze_row id_idx src_idx trg_idx char_limit row = ok (Some v) ->
  char_limit < v_max_len v
  /\ v_max_len v <= v_segment_len v
  /\ In (v_max_len v) (v_line_lengths v)
  /\ Forall (fun n => 1 <= n <= v_max_len v) (v_line_lengths v)
  /\ strip (v_id v) = v_id v.
Proof.
  intros Hrow.
  destruct (analyze_row_cells _ _ _ _ _ _ Hrow)
    as (ic & sc & tc & _ & _ & Htc & Hv).
  destruct (Hv v eq_refl) as (Hid & _ & _ & _).
  destruct (analyze_row_outcome _ _ _ _ _ _ _ Htc Hrow) as (Hiff & Hfields & _).
  destruct (Hfields v eq_refl) as (_ & Hlens & Hsum & Hin & Hall).
  destruct (proj1 Hiff (ex_intro _ v eq_refl)) as (_ & m & Hm & _ & Hlim).
  assert (Hpos : Forall (fun n => 1 <= n) (map len (counted_lines (c_text tc)))).
  { apply Forall_forall. intros n Hn. apply in_map_iff in Hn as (l & <- & Hl).
    apply counted_line_not_empty in Hl. destruct l; [congruence|].
    unfold len. simpl. lia. }
  rewrite Hlens, Hsum. split; [|split; [|split; [|split]]].
  - rewrite Forall_forall in Hall. specialize (Hall _ Hm). lia.
  - apply sum_bounds_member; [|exact Hin].
    eapply Forall_impl; [|exact Hpos]. simpl. intros; lia.
  - exact Hin.
  - rewrite Forall_forall in *. intros n Hn.
    specialize (Hall _ Hn). specialize (Hpos _ Hn). lia.
  - rewrite Hid. apply strip_idempotent.
Qed.

Lemma emitted_record_invariants_witness :
  exists v,
    analyze_row 0 1 2 10
      (mk_row [str " 7 "; str "Hallo"; str "Hello<b>World this is long"])
    = ok (Some v)
    /\ 10 < v_max_len v /\ v_max_len v <= v_segment_len v
    /\ strip (v_id v) = v_id v.
Proof.
  eexists. split; [vm_compute; reflexivity|].
  destruct (emitted_record_invariants 0 1 2 10
              (mk_row [str " 7 "; str "Hallo"; str "Hello<b>World this is long"])
              _ ltac:(vm_compute; reflexivity))
    as (H1 & H2 & _ & _ & H5).
  split; [exact H1|]. split; [exact H2|exact H5].
Defined.

(** ** The limit *)

Lemma analyze_row_lower_limit (id_idx src_idx trg_idx : nat)
  (limit limit' : Z) (row : Row) (r : option violation) :
  analyze_row id_idx src_idx trg_idx limit row = ok r -> limit' <= limit ->
  exists r',
    analyze_row id_idx src_idx trg_idx limit' row = ok r'
    /\ forall v, r = Some v -> exists v', r' = Some v' /\ same_measures v v'.
Proof.
  unfold analyze_row, index.
  destruct (nth_error (cells row) id_idx) as [ic|]; [|discriminate].
  destruct (nth_error (cells row) src_idx) as [sc|]; [|discriminate].
  destruct (nth_error (cells row) trg_idx) as [tc|]; [|discriminate].
  simpl. destruct (filter _ _) as [|l ls].
  - intros H _. injection H as <-. exists None. split; [reflexivity|].
    intros v Hv. discriminate.
  - destruct (py_max (map len (l :: ls))) as [e|m]; simpl; [discriminate|].
    intros H Hle.
    destruct (Z.leb_spec m limit) as [Hm|Hm].
    + injection H as <-.
      destruct (m <=? limit'); eexists; (split; [reflexivity|]);
        intros v Hv; discriminate.
    + injection H as <-.
      destruct (Z.leb_spec m limit') as [Hm'|Hm']; [lia|].
      eexists. split; [reflexivity|]. intros v Hv. injection Hv as <-.
      eexists. split; [reflexivity|]. repeat split.
Qed.

(** X3: lowering the limit loses no violation: the rows that give a record
    under a limit give one under every smaller limit, with the same
    identifier, texts and lengths, so the list of records does not get
    shorter; and an analysis that returns under one limit returns under the
    other. *)
Theorem lower_limit_keeps_violations (id_idx src_idx trg_idx : nat)
  (limit limit' : Z) (rs : list Row) (vs : list violation) :
  analyze_rows id_idx src_idx trg_idx limit rs [] = ok vs ->
  limit' <= limit ->
  exists vs',
    analyze_rows id_idx src_idx trg_idx limit' rs [] = ok vs'
    /\ (length vs <= length vs')%nat
    /\ forall v, In v vs -> exists v', In v' vs' /\ same_measures v v'.
Proof.
  intros H Hle. revert vs H. induction rs as [|row rs IH]; intros vs.
  - simpl. intros H; injection H as <-. exists []. split; [reflexivity|].
    split; [lia|]. intros v [].
  - rewrite !analyze_rows_cons.
    destruct (analyze_row id_idx src_idx trg_idx limit row) as [e|r] eqn:Er;
      simpl; [discriminate|].
    destruct (analyze_rows id_idx src_idx trg_idx limit rs []) as [e|ws] eqn:Ers;
      simpl; [discriminate|].
    intros H; injection H as <-.
    destruct (analyze_row_lower_limit _ _ _ _ _ _ _ Er Hle) as (r' & -> & Hr').
    destruct (IH ws eq_refl) as (ws' & -> & Hlen & Hin). simpl.
    exists (record_of r' ++ ws'). split; [reflexivity|]. split.
    + rewrite !length_app. destruct r as [v|]; simpl; [|lia].
      destruct (Hr' v eq_refl) as (v' & -> & _). simpl. lia.
    + intros v Hv. apply in_app_or in Hv as [Hv|Hv].
      * destruct r as [v0|]; [|destruct Hv]. destruct Hv as [<-|[]].
        destruct (Hr' v0 eq_refl) as (v' & -> & Hsame).
        exists v'. split; [now left|exact Hsame].
      * destruct (Hin v Hv) as (v' & Hv' & Hsame).
        exists v'. split; [apply in_or_app; now right|exact Hsame].
Qed.

Lemma lower_limit_keeps_violations_witness :
  exists vs',
    analyze_rows 0 1 2 3 sample_rows [] = ok vs'
    /\ (1 <= length vs')%nat.
Proof.
  destruct (lower_limit_keeps_violations 0 1 2 10 3 sample_rows _
              ltac:(vm_compute; reflexivity) ltac:(lia))
    as (vs' & E & Hlen & _).
  exists vs'. split; [exact E|exact Hlen].
Defined.

(** ** When the analysis raises *)

Lemma analyze_rows_raises (id_idx src_idx trg_idx : nat) (char_limit : Z)
  (rs : list Row) (acc : list violation) (e : exn) :
  (id_idx <= trg_idx)%nat -> (src_idx <= trg_idx)%nat ->
  analyze_rows id_idx src_idx trg_idx char_limit rs acc = inl e ->
  e = IndexError
  /\ Exists (fun row => (length (cells row) <= trg_idx)%nat) rs.
Proof.
  intros Hi Hs. revert acc. induction rs as [|row rs IH]; intros acc; simpl;
    [discriminate|].
  destruct (analyze_row id_idx src_idx trg_idx char_limit row) as [e'|r] eqn:E;
    simpl.
  - intros H; injection H as <-. split.
    + now apply analyze_row_raises_index_error in E.
    + apply Exists_cons_hd.
      destruct (le_lt_dec (length (cells row)) trg_idx) as [Hle|Hlt]; [exact Hle|].
      destruct (analyze_row_total id_idx src_idx trg_idx char_limit row)
        as (r & Hr); try lia. rewrite E in Hr. discriminate.
  - intros H. assert (H' : exists acc', analyze_rows id_idx src_idx trg_idx
                                          char_limit rs acc' = inl e).
    { destruct r; eauto. }
    destruct H' as (acc' & H').
    destruct (IH _ H') as (He & Hex). split; [exact He|].
    now apply Exists_cons_tl.
Qed.

(** X4: the loop over the rows after the header raises in one case only:
    some row has no cell two columns to the right of the [ID] column; the
    exception is then an [IndexError]. In every other case the loop returns
    a list. *)
Theorem row_loop_raises_iff_short_row (id_idx : nat) (char_limit : Z)
  (rs : list Row) (e : exn) :
  analyze_rows id_idx (id_idx + 1) (id_idx + 2) char_limit rs [] = inl e <->
  e = IndexError
  /\ Exists (fun row => (length (cells row) <= id_idx + 2)%nat) rs.
Proof.
  split.
  - intros H. apply analyze_rows_raises in H; [exact H|lia|lia].
  - intros (-> & Hex). now apply analyze_rows_short.
Qed.

Lemma row_loop_raises_iff_short_row_witness :
  analyze_rows 0 1 2 10
    [mk_row [str "1"; str "eins"]; mk_row [str "2"; str "zwei"; str "two"]] []
  = inl IndexError.
Proof.
  apply (proj2 (row_loop_raises_iff_short_row 0 10
                  [mk_row [str "1"; str "eins"];
                   mk_row [str "2"; str "zwei"; str "two"]] IndexError)).
  split; [reflexivity|]. apply Exists_cons_hd. simpl. lia.
Defined.

(** ** Escaped text *)

(** X5: escaped text holds none of the characters [<], [>], the double
    quote and the apostrophe, so nothing escaped can open or close an
    element or end an attribute value; and the text is not shorter than
    before. *)
Theorem html_escape_leaves_no_markup (s : text) (x : char) :
  In x (html_escape s) ->
  x <> ch "<" /\ x <> ch ">" /\ x <> 34%N /\ x <> ch "'"
  /\ (length s <= length (html_escape s))%nat.
Proof.
  rewrite html_escape_chars. intros H.
  apply in_flat_map in H as (y & _ & Hy).
  destruct (escape_char_no_markup y x Hy) as (H1 & H2 & H3 & H4).
  repeat (split; [assumption|]).
  clear. induction s as [|y s IH]; [simpl; lia|].
  simpl. rewrite length_app.
  assert (1 <= length (escape_char y))%nat; [|lia].
  unfold escape_char.
  repeat match goal with
         | |- context [if ?b then _ else _] => destruct b; [simpl; lia|]
         end.
  simpl. lia.
Qed.

Lemma html_escape_leaves_no_markup_witness :
  ch "&" <> ch "<" /\ ch "&" <> ch ">" /\ ch "&" <> 34%N /\ ch "&" <> ch "'"
  /\ (length (str "a<b") <= length (html_escape (str "a<b")))%nat.
Proof.
  apply (html_escape_leaves_no_markup (str "a<b") (ch "&")).
  vm_compute. right. left. reflexivity.
Defined.

(** X6: escaping is injective and works piece by piece: different texts
    have different escapings, and the escapings of two pieces, one after
    the other, are the escaping of the whole. *)
Theorem html_escape_injective_piecewise (a b : text) :
  (html_escape a = html_escape b -> a = b)
  /\ html_escape (a ++ b) = html_escape a ++ html_escape b.
Proof.
  split; [|apply html_escape_app].
  intros H. apply (f_equal attribute_value) in H.
  now rewrite !attribute_value_html_escape in H.
Qed.

Lemma html_escape_injective_piecewise_witness :
  html_escape (str "a&" ++ str "b") = html_escape (str "a&") ++ html_escape (str "b").
Proof. exact (proj2 (html_escape_injective_piecewise (str "a&") (str "b"))). Defined.

(** ** The cut of a long line *)

Lemma slices_partition {A : Type} (k : Z) (l : list A) :
  slice_to k l ++ slice_from k l = l.
Proof.
  unfold slice_to, slice_from. destruct (0 <=? k); apply firstn_skipn.
Qed.

Lemma highlighted_line_over (char_limit : Z) (line : text) :
  line <> [] -> char_limit < len line ->
  highlighted_line char_limit line
  = html_escape (slice_to char_limit line) ++ span_overflow_open
      ++ html_escape (slice_from char_limit line) ++ str "</span><br>"
    /\ slice_from char_limit line <> [].
Proof.
  intros Hne H. unfold highlighted_line.
  destruct line as [|x line]; [congruence|].
  destruct (Z.leb_spec (len (x :: line)) char_limit) as [Hle|_]; [lia|].
  split; [reflexivity|].
  intros E. apply (f_equal (@length char)) in E. revert E H.
  unfold slice_from, len. destruct (Z.leb_spec 0 char_limit);
    rewrite length_skipn; simpl length; lia.
Qed.

(** X7: a line longer than the limit is cut into two pieces that together
    are the line, and the piece put into the overflow span is never empty;
    the escaped pieces together are the escaped line. For a limit that is
    not negative the first piece has [char_limit] characters; for a
    negative limit, which [main] accepts, the cut is counted from the end
    of the line: the span holds the last [-char_limit] characters, or the
    whole line when it is shorter. *)
Theorem overflow_cut_loses_nothing (char_limit : Z) (line : text) :
  line <> [] -> char_limit < len line ->
  exists prefix overflow,
    highlighted_line char_limit line
    = html_escape prefix ++ span_overflow_open ++ html_escape overflow
        ++ str "</span><br>"
    /\ prefix ++ overflow = line
    /\ html_escape prefix ++ html_escape overflow = html_escape line
    /\ overflow <> []
    /\ (0 <= char_limit -> len prefix = char_limit)
    /\ (char_limit < 0 -> len overflow = Z.min (- char_limit) (len line)).
Proof.
  intros Hne H. destruct (highlighted_line_over char_limit line Hne H) as [E Ho].
  exists (slice_to char_limit line), (slice_from char_limit line).
  split; [exact E|]. split; [apply slices_partition|].
  split; [now rewrite <- html_escape_app, slices_partition|].
  split; [exact Ho|]. unfold slice_to, slice_from, len in *. split.
  - intros Hk. destruct (Z.leb_spec 0 char_limit); [|lia].
    rewrite firstn_length_le; lia.
  - intros Hk. destruct (Z.leb_spec 0 char_limit); [lia|].
    rewrite length_skipn. lia.
Qed.

Lemma overflow_cut_loses_nothing_witness :
  exists prefix overflow,
    highlighted_line (-2) (str "abcdef")
    = html_escape prefix ++ span_overflow_open ++ html_escape overflow
        ++ str "</span><br>"
    /\ prefix ++ overflow = str "abcdef"
    /\ len overflow = 2.
Proof.
  destruct (overflow_cut_loses_nothing (-2) (str "abcdef"))
    as (p & o & E & Hpo & _ & _ & _ & Hneg).
  - discriminate.
  - reflexivity.
  - exists p, o. split; [exact E|]. split; [exact Hpo|].
    apply Hneg. reflexivity.
Defined.

(** ** The overflow span in a record *)

Lemma concat_map_member {A : Type} (f : A -> text) (l : list A) (x : A) :
  In x l -> exists before after, concat (map f l) = before ++ f x ++ after.
Proof.
  intros H. apply in_split in H as (l1 & l2 & ->).
  exists (concat (map f l1)), (concat (map f l2)).
  now rewrite map_app, concat_app.
Qed.

(** X8: the highlighted rendering of every record holds at least one
    overflow span, and the span is not empty: a segment is never reported
    without a marked character. *)
Theorem record_marks_an_overflow (id_idx src_idx trg_idx : nat)
  (char_limit : Z) (row : Row) (v : violation) :
  analyze_row id_idx src_idx trg_idx char_limit row = ok (Some v) ->
  exists before overflow after,
    overflow <> []
    /\ v_highlighted_target_html v
       = before ++ span_overflow_open ++ html_escape overflow
           ++ str "</span><br>" ++ after.
Proof.
  intros Hrow.
  destruct (analyze_row_cells _ _ _ _ _ _ Hrow)
    as (ic & sc & tc & _ & _ & Htc & Hv).
  destruct (Hv v eq_refl) as (_ & _ & _ & ->).
  destruct (analyze_row_outcome _ _ _ _ _ _ _ Htc Hrow) as (Hiff & _ & _).
  destruct (proj1 Hiff (ex_intro _ v eq_refl)) as (_ & m & Hm & _ & Hlim).
  apply in_map_iff in Hm as (line & <- & Hline).
  pose proof (counted_line_not_empty _ _ Hline) as Hne.
  unfold counted_lines in Hline. apply filter_In in Hline as [Hline _].
  rewrite join_empty.
  destruct (concat_map_member (highlighted_line char_limit) _ _ Hline)
    as (before & after & ->).
  destruct (highlighted_line_over char_limit line Hne Hlim) as [-> Ho].
  exists (before ++ html_escape (slice_to char_limit line)).
  exists (slice_from char_limit line), after.
  split; [exact Ho|]. now rewrite <- !app_assoc.
Qed.

Lemma record_marks_an_overflow_witness :
  exists v before overflow after,
    analyze_row 0 1 2 10
      (mk_row [str "1"; str "Hallo"; str "Hello<b>World this is long"])
    = ok (Some v)
    /\ overflow <> []
    /\ v_highlighted_target_html v
       = before ++ span_overflow_open ++ html_escape overflow
           ++ str "</span><br>" ++ after.
Proof.
  eexists.
  destruct (record_marks_an_overflow 0 1 2 10
              (mk_row [str "1"; str "Hallo"; str "Hello<b>World this is long"])
              _ ltac:(vm_compute; reflexivity))
    as (b & o & a & Ho & E).
  exists b, o, a. split; [vm_compute; reflexivity|]. split; [exact Ho|exact E].
Defined.

(** ** The identifier shown in a row *)

Lemma split_ws_from_nil (cur s : text) :
  split_ws_from cur s = [] <-> cur = [] /\ blank s = true.
Proof.
  revert cur. induction s as [|c s IH]; intros cur; simpl.
  - destruct cur; split; try tauto; try discriminate. intros [H _]. discriminate.
  - destruct (isspace c); simpl.
    + destruct cur as [|x cur]; [apply IH|].
      split; [discriminate|]. intros [H _]. discriminate.
    + rewrite IH. split; intros [H1 H2]; discriminate.
Qed.

Lemma split_ws_from_token (tok : text) (cur : text) (tail : text) :
  forallb (fun x => negb (isspace x)) tok = true ->
  cur ++ tok <> [] ->
  (tail = [] \/ exists c rest, tail = c :: rest /\ isspace c = true) ->
  exists more, split_ws_from cur (tok ++ tail) = (rev cur ++ tok) :: more.
Proof.
  revert cur. induction tok as [|x tok IH]; intros cur Htok Hne Htail.
  - rewrite app_nil_r in *. simpl.
    destruct Htail as [->|(c & rest & -> & Hc)]; simpl.
    + destruct cur; [congruence|]. now exists [].
    + rewrite Hc. destruct cur; [congruence|]. eauto.
  - simpl in Htok. apply andb_true_iff in Htok as [Hx Htok].
    apply negb_true_iff in Hx. simpl. rewrite Hx.
    destruct (IH (x :: cur) Htok) as (more & ->); [discriminate|exact Htail|].
    exists more. simpl. now rewrite <- app_assoc.
Qed.

(** X9: the renderer fails on a record in one case only: an identifier that
    is not empty and holds whitespace only, for which taking the first
    token raises an [IndexError]; for every other record a row is
    rendered. *)
Theorem render_row_raises_iff_blank_id (v : violation) (e : exn) :
  render_row v = inl e <->
  e = IndexError /\ v_id v <> [] /\ blank (v_id v) = true.
Proof.
  unfold render_row.
  destruct (v_id v) as [|c id] eqn:Eid.
  - simpl. split; [discriminate|]. intros (_ & H & _). congruence.
  - unfold index, split_ws.
    destruct (split_ws_from [] (c :: id)) as [|tok more] eqn:E.
    + apply split_ws_from_nil in E as [_ E]. simpl nth_error. simpl rbind.
      unfold throw. split.
      * intros H; injection H as <-. repeat split; [discriminate|exact E].
      * now intros (-> & _).
    + simpl. split; [discriminate|]. intros (_ & _ & H).
      assert (E' : split_ws_from [] (c :: id) = []).
      { apply split_ws_from_nil. now split. }
      congruence.
Qed.

Lemma render_row_raises_iff_blank_id_witness :
  render_row {| v_id := str "  "; v_source := []; v_target := [];
                v_max_len := 0; v_segment_len := 0; v_line_lengths := [];
                v_highlighted_target_html := [] |}
  = inl IndexError.
Proof.
  apply (proj2 (render_row_raises_iff_blank_id _ IndexError)).
  split; [reflexivity|]. split; [discriminate|reflexivity].
Defined.

(** X10: the report shows the first token of the identifier only: when the
    identifier begins with a token without whitespace that ends the
    identifier or is followed by whitespace, the identifier cell of the row
    holds the escaping of that token, whatever follows. *)
Theorem row_shows_first_token (v : violation) (tok tail : text) :
  v_id v = tok ++ tail -> tok <> [] ->
  forallb (fun x => negb (isspace x)) tok = true ->
  (tail = [] \/ exists c rest, tail = c :: rest /\ isspace c = true) ->
  render_row v
  = ok (table_row (html_escape tok) (html_escape (v_source v))
          (target_cell (html_escape (v_highlighted_target_html v))
             (v_highlighted_target_html v))
          (str_of_int (v_max_len v)) (str_of_int (v_segment_len v))).
Proof.
  intros Hid Hne Htok Htail. unfold render_row. rewrite Hid.
  destruct (split_ws_from_token tok [] tail Htok) as (more & E);
    [exact Hne|exact Htail|].
  unfold split_ws. rewrite E. destruct tok as [|x tok]; [congruence|].
  reflexivity.
Qed.

Lemma row_shows_first_token_witness :
  exists v,
    v_id v = str "12 (context note)"
    /\ render_row v
       = ok (table_row (html_escape (str "12")) (html_escape (v_source v))
               (target_cell (html_escape (v_highlighted_target_html v))
                  (v_highlighted_target_html v))
               (str_of_int (v_max_len v)) (str_of_int (v_segment_len v))).
Proof.
  exists {| v_id := str "12 (context note)"; v_source := str "Quelle";
            v_target := str "Ziel"; v_max_len := 4; v_segment_len := 4;
            v_line_lengths := [4]; v_highlighted_target_html := str "Ziel<br>" |}.
  split; [reflexivity|].
  apply (row_shows_first_token _ (str "12") (str " (context note)")).
  - reflexivity.
  - discriminate.
  - reflexivity.
  - right. exists (ch " "), (str "(context note)"). split; reflexivity.
Defined.

(** ** From the analysis to the report *)






(** ** What normalization can do to a text *)

Lemma sub_from_in (r : Re.re) (repl : text) (k : nat) (s : text) (x : char) :
  In x (Re.sub_from r repl k s) -> In x s \/ In x repl.
Proof.
  revert k. induction s as [|y s IH]; intros k; [simpl; tauto|].
  cbn [Re.sub_from]. destruct k as [|k].
  - destruct (Re.match_at r (y :: s)) as [rest|].
    + destruct (length (y :: s) - length rest)%nat as [|n].
      * intros [->|H]; [now left; left|]. destruct (IH _ H); auto.
        left. now right.
      * intros H. apply in_app_or in H as [H|H]; [now right|].
        destruct (IH _ H); auto. left. now right.
    + intros [->|H]; [now left; left|]. destruct (IH _ H); auto.
      left. now right.
  - intros H. destruct (IH _ H); auto. left. now right.
Qed.

Lemma sub_from_length (r : Re.re) (c : char) (k : nat) (s : text) :
  (length (Re.sub_from r [c] k s) <= length s)%nat.
Proof.
  revert k. induction s as [|y s IH]; intros k; [simpl; lia|].
  cbn [Re.sub_from]. destruct k as [|k].
  - destruct (Re.match_at r (y :: s)) as [rest|].
    + destruct (length (y :: s) - length rest)%nat as [|n].
      * specialize (IH O). simpl. lia.
      * specialize (IH n). simpl. lia.
    + specialize (IH O). simpl. lia.
  - specialize (IH k). simpl. lia.
Qed.

Lemma replace_from_length (old : text) (c : char) (k : nat) (s : text) :
  (length (replace_from old [c] k s) <= length s)%nat.
Proof.
  revert k. induction s as [|y s IH]; intros k; simpl; [lia|].
  destruct k as [|k].
  - destruct (startswith (y :: s) old); simpl.
    + specialize (IH (length old - 1)%nat). lia.
    + specialize (IH O). lia.
  - specialize (IH k). lia.
Qed.

(** X12: normalization invents no text and never makes a text longer: every
    character of the result is a character of the given text or a line
    feed, and the result has at most as many characters as the given
    text. *)
Theorem normalize_adds_only_line_feeds (s : text) (x : char) :
  In x (normalize_with_linebreaks s) ->
  (In x s \/ x = LF)
  /\ (length (normalize_with_linebreaks s) <= length s)%nat.
Proof.
  rewrite normalize_eq. unfold normalize_line_endings, replace. intros H. split.
  - apply replace_from_in in H as [H|[<-|[]]]; [|now right].
    apply replace_from_in in H as [H|[<-|[]]]; [|now right].
    apply sub_from_in in H as [H|[<-|[]]]; auto.
  - pose proof (replace_from_length [CR] LF 0
                  (replace_from [CR; LF] [LF] 0 (Re.sub tag_pattern [LF] s))).
    pose proof (replace_from_length [CR; LF] LF 0 (Re.sub tag_pattern [LF] s)).
    pose proof (sub_from_length tag_pattern LF 0 s).
    unfold Re.sub in *. lia.
Qed.

Lemma normalize_adds_only_line_feeds_witness :
  (In LF (str "a<b>c") \/ LF = LF)
  /\ (length (normalize_with_linebreaks (str "a<b>c")) <= length (str "a<b>c"))%nat.
Proof.
  apply (normalize_adds_only_line_feeds (str "a<b>c") LF).
  vm_compute. right. left. reflexivity.
Defined.

(** X13: a text without the opening delimiters [<], [[] and [{] and without
    carriage returns is left as it is, line feeds included, so its logical
    lines are its own lines. *)
Theorem normalize_keeps_text_without_tags (s : text) :
  (forall x, In x s -> opens_tag x = false /\ x <> CR) ->
  normalize_with_linebreaks s = s /\ logical_lines s = split LF s.
Proof.
  intros H. assert (E : normalize_with_linebreaks s = s).
  { rewrite normalize_eq. induction s as [|x s IH]; [reflexivity|].
    destruct (H x) as [Ho Hcr]; [now left|].
    rewrite sub_char by assumption. rewrite nle_other by assumption.
    rewrite IH; [reflexivity|]. intros y Hy. apply H. now right. }
  split; [exact E|]. unfold logical_lines. now rewrite E.
Qed.

Lemma normalize_keeps_text_without_tags_witness :
  normalize_with_linebreaks (str "one" ++ LF :: str "two") = str "one" ++ LF :: str "two".
Proof.
  apply (normalize_keeps_text_without_tags (str "one" ++ LF :: str "two")).
  intros x Hx. simpl in Hx.
  repeat (destruct Hx as [<-|Hx]; [split; [reflexivity|discriminate]|]).
  destruct Hx.
Defined.

(** ** The logical lines *)

Lemma split_not_nil (sep : char) (s : text) : split sep s <> [].
Proof.
  destruct s as [|x s]; simpl; [discriminate|].
  destruct (N.eqb x sep); [discriminate|].
  destruct (split sep s); discriminate.
Qed.

Lemma split_piece_no_sep (sep : char) (s l : text) :
  In l (split sep s) -> ~ In sep l.
Proof.
  revert l. induction s as [|x s IH]; intros l; simpl.
  - intros [<-|[]] [].
  - destruct (N.eqb_spec x sep) as [->|Hx].
    + intros [<-|H]; [intros []|now apply IH].
    + pose proof (split_not_nil sep s) as Hne.
      destruct (split sep s) as [|p ps]; [congruence|].
      intros [<-|H].
      * intros [E|Hin]; [congruence|]. apply (IH p); [now left|exact Hin].
      * apply IH. now right.
Qed.

Lemma join_split (sep : char) (s : text) : join [sep] (split sep s) = s.
Proof.
  induction s as [|x s IH]; [reflexivity|]. simpl.
  pose proof (split_not_nil sep s) as Hne.
  destruct (N.eqb_spec x sep) as [->|Hx].
  - destruct (split sep s) as [|p ps]; [congruence|].
    simpl in *. now rewrite IH.
  - destruct (split sep s) as [|p ps]; [congruence|].
    destruct ps as [|q ps]; simpl in *; now rewrite <- IH.
Qed.

(** X14: the logical lines of a target are never none, no logical line
    holds a line feed or a carriage return, and the lines put together with
    line feeds are the normalized text: the lines are pieces of text
    without any line ending, and no character is lost between them. *)
Theorem logical_lines_hold_no_line_ending (target : text) :
  logical_lines target <> []
  /\ (forall l, In l (logical_lines target) -> ~ In LF l /\ ~ In CR l)
  /\ join [LF] (logical_lines target) = normalize_with_linebreaks target.
Proof.
  unfold logical_lines. split; [apply split_not_nil|]. split.
  - intros l Hl. split; [exact (split_piece_no_sep LF _ l Hl)|].
    intros Hcr. apply (normalize_no_cr target).
    exact (split_pieces LF _ l CR Hl Hcr).
  - apply join_split.
Qed.

Lemma logical_lines_hold_no_line_ending_witness :
  ~ In LF (str "Hello") /\ ~ In CR (str "Hello").
Proof.
  apply (proj1 (proj2 (logical_lines_hold_no_line_ending
                         (str "Hello<b>World this is long")))).
  vm_compute. left. reflexivity.
Defined.

(** ** What a run writes *)

(** The events of an analysis: the loading message, the loading of the
    document, then messages only. *)
Lemma analyze_document_log (Document : text -> Doc) (docx_path : text)
  (char_limit : Z) :
  exists m more,
    fst (analyze_document Document docx_path char_limit)
    = Printed m :: Loaded docx_path :: map Printed more.
Proof.
  unfold analyze_document. rewrite !fst_bind. cbn [fst snd print emit lift app].
  destruct (find_bilingual_table (Document docx_path)) as [e|[[[t ri] ci]|]].
  - eexists _, []. reflexivity.
  - rewrite !fst_bind. cbn [fst snd print emit lift app].
    destruct (index (rows t) ri) as [e|header].
    + eexists _, [_]. reflexivity.
    + destruct (len (stripped_cells header) <=? Z.of_nat (ci + 1 + 1)).
      * rewrite !fst_bind. cbn [fst snd print emit lift app ret].
        eexists _, [_; _]. reflexivity.
      * rewrite !fst_bind. cbn [fst snd print emit lift app ret].
        destruct (analyze_rows _ _ _ _ _ _) as [e|vs].
        -- eexists _, [_]. reflexivity.
        -- rewrite !fst_bind. cbn [fst snd print emit lift app ret].
           eexists _, [_; _]. reflexivity.
  - rewrite !fst_bind. cbn [fst snd print emit lift app ret].
    eexists _, [_]. reflexivity.
Qed.

Lemma no_report_in_prints (lines : list text) :
  existsb is_written (map Printed lines) = false.
Proof. induction lines; simpl; auto. Qed.

Lemma analyze_document_writes_nothing (Document : text -> Doc)
  (docx_path : text) (char_limit : Z) :
  existsb is_written (fst (analyze_document Document docx_path char_limit)) = false
  /\ loads_only docx_path (fst (analyze_document Document docx_path char_limit)).
Proof.
  destruct (analyze_document_log Document docx_path char_limit) as (m & more & ->).
  split.
  - simpl. apply no_report_in_prints.
  - intros q [H|[H|H]]; [discriminate|congruence|].
    apply in_map_iff in H as (l & E & _). discriminate.
Qed.

(** The analysis and the report for one limit: either an exception, with
    nothing written, or one page written as the last but one event. *)
Lemma run_with_limit_log (os : os_env) (Document : text -> Doc)
  (input_path : text) (char_limit : Z) :
  exists log,
    existsb is_written log = false /\ loads_only input_path log
    /\ ((exists e, run_with_limit os Document input_path char_limit = (log, inl e))
        \/ exists page,
             run_with_limit os Document input_path char_limit
             = (log ++ [Written (report_path os input_path char_limit) page;
                        Printed (str "HTML report written to: "
                                   ++ report_path os input_path char_limit)],
                ok tt)).
Proof.
  unfold run_with_limit. fold (report_path os input_path char_limit).
  destruct (analyze_document_writes_nothing Document input_path char_limit)
    as [Hw Hl].
  destruct (analyze_document Document input_path char_limit) as [la [e|vs]].
  - exists la. simpl in *. repeat split; trivial. left. now exists e.
  - simpl in Hw, Hl. unfold bind, build_html_report, lift, emit, print.
    destruct (render_rows vs []) as [e|rows_html]; simpl.
    + exists la. repeat split; trivial. left. exists e. now rewrite app_nil_r.
    + exists la. repeat split; trivial. right. eexists. reflexivity.
Qed.

(** [main] up to the limit: it stops after messages and at most the prompt,
    without any work, or it goes on with some limit for a file whose
    extension is [.docx]. *)
Lemma main_log (w : world) :
  (exists log r, main w = (log, r) /\ existsb is_work log = false)
  \/ exists pre Document input_path char_limit,
       text_eqb (lower (snd (path_splitext (os w) input_path))) (str ".docx")
       = true
       /\ existsb is_work pre = false
       /\ main w
          = bind (pre, ok tt)
              (fun _ => run_with_limit (os w) Document input_path char_limit)
       /\ snd (python_docx w) = ok Document
       /\ exists line, stdin_line w = Some line
                       /\ builtin_int w (strip line) = ok char_limit.
Proof.
  unfold main, ensure_python_docx.
  set (hdr := str "=== memoQ Line Length Checker - v" ++ VERSION
                ++ str " (DOCX + HTML) ===").
  destruct (python_docx w) as [out [e|D]]; simpl fst; simpl snd.
  { left. exists (map Printed (hdr :: out)), (inl e). split; [reflexivity|].
    apply no_work_in_prints. }
  set (chosen := match filter _ _, filter _ _ with
                 | f :: _, _ => Some f
                 | [], f :: _ => Some f
                 | [], [] => None
                 end).
  destruct chosen as [f|].
  2:{ left. unfold bind, print, emit. simpl.
      eexists (map Printed (hdr :: out ++ [_])), _. split.
      - simpl. rewrite map_app. reflexivity.
      - apply no_work_in_prints. }
  set (input_path := path_join (os w) (getcwd (os w)) f).
  destruct (path_isfile (os w) input_path); simpl negb; cbv iota.
  2:{ left. unfold bind, print, emit. simpl.
      eexists (map Printed (hdr :: out ++ [_; _])), _. split.
      - simpl. rewrite map_app. reflexivity.
      - apply no_work_in_prints. }
  destruct (text_eqb _ (str ".docx")) eqn:Eext; simpl negb; cbv iota.
  2:{ left. unfold bind, print, emit. simpl.
      eexists (map Printed (hdr :: out ++ [_; _])), _. split.
      - simpl. rewrite map_app. reflexivity.
      - apply no_work_in_prints. }
  set (lines := hdr :: out ++ [str "Detected file in current folder: " ++ input_path]).
  unfold input. destruct (stdin_line w) as [line|].
  - change (bind (emit (Prompted limit_prompt)) (fun _ => ret line))
      with ([Prompted limit_prompt], @inr exn text line).
    destruct (builtin_int w (strip line)) as [e|n] eqn:Eint.
    + left.
      match goal with
      | |- exists log r, ?m = _ /\ _ =>
          assert (E : m = (map Printed lines
                             ++ [Prompted limit_prompt]
                             ++ match e with
                                | ValueError =>
                                    [Printed (str "Error: character limit must be an integer.")]
                                | _ => []
                                end,
                           match e with
                           | ValueError => ok tt
                           | _ => inl e
                           end))
      end.
      { etransitivity; [apply bind_prints|]. unfold ok. rewrite !bind_log.
        cbv beta. rewrite Eint. destruct e; reflexivity. }
      rewrite E. eexists _, _. split; [reflexivity|].
      rewrite !existsb_app, no_work_in_prints. now destruct e.
    + right. exists (map Printed lines ++ [Prompted limit_prompt]), D, input_path, n.
      split; [exact Eext|]. split; [|split; [|split]].
      * rewrite existsb_app, no_work_in_prints. reflexivity.
      * etransitivity; [apply bind_prints|]. unfold ok. rewrite !bind_log.
        cbv beta. rewrite Eint. unfold run_with_limit. cbv zeta.
        simpl fst. simpl snd. now rewrite <- !app_assoc.
      * reflexivity.
      * exists line. split; [reflexivity|exact Eint].
  - left. eexists (map Printed lines ++ [Prompted limit_prompt]), (inl EOFError).
    split.
    + etransitivity; [apply bind_prints|]. unfold ok. rewrite bind_log.
      reflexivity.
    + rewrite existsb_app, no_work_in_prints. reflexivity.
Qed.

Lemma no_work_no_report (log : list event) :
  existsb is_work log = false -> existsb is_written log = false.
Proof.
  induction log as [|e log IH]; [reflexivity|]. simpl.
  intros H. apply orb_false_iff in H as [He Hlog].
  rewrite (IH Hlog). now destruct e.
Qed.

Lemma not_written_in (log : list event) (path content : text) :
  existsb is_written log = false -> ~ In (Written path content) log.
Proof.
  intros H Hin. assert (E : existsb is_written log = true).
  { apply existsb_exists. now exists (Written path content). }
  congruence.
Qed.

Lemma not_loaded_in (log : list event) (path : text) :
  existsb is_work log = false -> ~ In (Loaded path) log.
Proof.
  intros H Hin. assert (E : existsb is_work log = true).
  { apply existsb_exists. now exists (Loaded path). }
  congruence.
Qed.

(** The analysis and the report for one limit, with what is written. *)
Lemma run_with_limit_report (os : os_env) (Document : text -> Doc)
  (input_path : text) (char_limit : Z) :
  exists log,
    existsb is_written log = false /\ In (Loaded input_path) log
    /\ ((exists e, run_with_limit os Document input_path char_limit = (log, inl e))
        \/ exists violations rows_html,
             snd (analyze_document Document input_path char_limit) = ok violations
             /\ render_rows violations [] = ok rows_html
             /\ run_with_limit os Document input_path char_limit
                = (log ++ [Written (report_path os input_path char_limit)
                             (html_page char_limit
                                (html_escape (path_basename os input_path))
                                (summary (len violations) char_limit)
                                (join [LF] rows_html));
                           Printed (str "HTML report written to: "
                                      ++ report_path os input_path char_limit)],
                   ok tt)).
Proof.
  unfold run_with_limit. fold (report_path os input_path char_limit).
  destruct (analyze_document_writes_nothing Document input_path char_limit)
    as [Hw _].
  pose proof (analyze_document_loads Document input_path char_limit) as Hl.
  destruct (analyze_document Document input_path char_limit) as [la [e|vs]].
  - exists la. simpl in *. repeat split; trivial. left. now exists e.
  - simpl in Hw, Hl. unfold bind, build_html_report, lift, emit, print.
    destruct (render_rows vs []) as [e|rows_html] eqn:Er; simpl.
    + exists la. repeat split; trivial. left. exists e. now rewrite app_nil_r.
    + exists la. repeat split; trivial. right. exists vs, rows_html.
      split; [reflexivity|]. split; [exact Er|reflexivity].
Qed.

(** X15: [main] reaches the writing of a report at most once, and only
    after the dependency check has given the [Document] callable, the line
    read at the prompt has been read as an integer, the chosen file has
    been loaded, the analysis has returned its list and every row has been
    rendered: the path is the report path of that file and limit, the
    content is the page for exactly that list, and nothing is written
    before or after. So an exception in the dependency check, at the
    prompt, in the analysis or in the rendering comes before any writing. *)
Theorem report_is_written_once_after_analysis (w : world)
  (path content : text) :
  In (Written path content) (fst (main w)) ->
  exists before after Document line input_path char_limit violations rows_html,
    fst (main w) = before ++ Written path content :: after
    /\ existsb is_written before = false
    /\ existsb is_written after = false
    /\ snd (python_docx w) = ok Document
    /\ stdin_line w = Some line
    /\ builtin_int w (strip line) = ok char_limit
    /\ In (Loaded input_path) before
    /\ snd (analyze_document Document input_path char_limit) = ok violations
    /\ render_rows violations [] = ok rows_html
    /\ path = report_path (os w) input_path char_limit
    /\ content
       = html_page char_limit
           (html_escape (path_basename (os w) input_path))
           (summary (len violations) char_limit) (join [LF] rows_html).
Proof.
  intros Hin.
  destruct (main_log w)
    as [(log & r & E & Hlog)
       |(pre & D & p & n & _ & Hpre & E & HD & line & Hline & Hint)].
  - rewrite E in Hin. simpl in Hin.
    now apply (not_written_in log path content (no_work_no_report _ Hlog)) in Hin.
  - unfold ok in E. rewrite bind_log in E. rewrite E in *. simpl fst in *.
    apply no_work_no_report in Hpre.
    destruct (run_with_limit_report (os w) D p n)
      as (la & Hla & Hload & [(e & ER)|(vs & rows_html & Hvs & Hrows & ER)]);
      rewrite ER in *; simpl fst in *.
    + exfalso. apply in_app_or in Hin as [Hin|Hin].
      * exact (not_written_in _ _ _ Hpre Hin).
      * exact (not_written_in _ _ _ Hla Hin).
    + apply in_app_or in Hin as [Hin|Hin];
        [exfalso; exact (not_written_in _ _ _ Hpre Hin)|].
      apply in_app_or in Hin as [Hin|Hin];
        [exfalso; exact (not_written_in _ _ _ Hla Hin)|].
      destruct Hin as [Hin|[Hin|[]]]; [|discriminate].
      injection Hin as <- <-.
      exists (pre ++ la).
      exists [Printed (str "HTML report written to: "
                         ++ report_path (os w) p n)].
      exists D, line, p, n, vs, rows_html.
      split; [now rewrite <- app_assoc|].
      split; [rewrite existsb_app, Hpre, Hla; reflexivity|].
      split; [reflexivity|].
      split; [exact HD|]. split; [exact Hline|]. split; [exact Hint|].
      split; [apply in_or_app; now right|].
      split; [exact Hvs|]. split; [exact Hrows|]. split; reflexivity.
Qed.

Lemma report_is_written_once_after_analysis_witness :
  exists content before after,
    fst (main (sample_world (str "10")))
    = before ++ Written (str "/work/job_length_report_10.html") content :: after
    /\ existsb is_written before = false
    /\ existsb is_written after = false.
Proof.
  assert (Hin : exists content,
             In (Written (str "/work/job_length_report_10.html") content)
               (fst (main (sample_world (str "10"))))).
  { set (log := fst (main (sample_world (str "10")))).
    vm_compute in log. subst log. eexists. do 8 right. left. reflexivity. }
  destruct Hin as (content & Hin). exists content.
  destruct (report_is_written_once_after_analysis _ _ _ Hin)
    as (before & after & _ & _ & _ & _ & _ & _ & E & Hb & Ha & _).
  exists before, after. split; [exact E|]. split; [exact Hb|exact Ha].
Defined.

(** X16: a run never writes over the document it reads: when
    [os.path.splitext] cuts a path into two parts that together are the
    path, as it is documented to do, the path [main] writes the report to
    is not the path of a document it has loaded. *)
Theorem main_never_overwrites_its_input (w : world) (path content : text) :
  (forall p, fst (path_splitext (os w) p) ++ snd (path_splitext (os w) p) = p) ->
  In (Written path content) (fst (main w)) ->
  ~ In (Loaded path) (fst (main w)).
Proof.
  intros Hsplit Hin Hload.
  destruct (main_log w)
    as [(log & r & E & Hlog)|(pre & D & p & n & Hext & Hpre & E & _)].
  - rewrite E in Hload. simpl in Hload. exact (not_loaded_in _ _ Hlog Hload).
  - unfold ok in E. rewrite bind_log in E. rewrite E in *. simpl fst in *.
    destruct (run_with_limit_log (os w) D p n)
      as (la & Hla & Hloads & [(e & ER)|(page & ER)]); rewrite ER in *;
      simpl fst in *.
    + apply in_app_or in Hin as [Hin|Hin].
      * exact (not_written_in _ _ _ (no_work_no_report _ Hpre) Hin).
      * exact (not_written_in _ _ _ Hla Hin).
    + assert (Hpath : path = report_path (os w) p n).
      { apply in_app_or in Hin as [Hin|Hin];
          [exfalso; exact (not_written_in _ _ _ (no_work_no_report _ Hpre) Hin)|].
        apply in_app_or in Hin as [Hin|Hin];
          [exfalso; exact (not_written_in _ _ _ Hla Hin)|].
        destruct Hin as [Hin|[Hin|[]]]; [|discriminate]. congruence. }
      assert (Hp : path = p).
      { apply in_app_or in Hload as [Hload|Hload];
          [exfalso; exact (not_loaded_in _ _ Hpre Hload)|].
        apply in_app_or in Hload as [Hload|Hload]; [now apply Hloads|].
        destruct Hload as [Hload|[Hload|[]]]; discriminate. }
      rewrite Hp in Hpath. unfold report_path in Hpath.
      rewrite <- (Hsplit p) in Hpath at 1. apply app_inv_head in Hpath.
      apply text_eqb_eq in Hext. apply (f_equal (@length char)) in Hext, Hpath.
      unfold lower in Hext. rewrite length_map in Hext.
      rewrite !length_app in Hpath. rewrite Hext in Hpath. simpl in Hpath. lia.
Qed.

Lemma join_snoc (sep : text) (parts : list text) (x : text) :
  parts <> [] -> join sep (parts ++ [x]) = join sep parts ++ sep ++ x.
Proof.
  induction parts as [|p ps IH]; [congruence|]. intros _.
  destruct ps as [|q ps]; [reflexivity|].
  change ((p :: q :: ps) ++ [x]) with (p :: (q :: ps) ++ [x]).
  change (join sep (p :: (q :: ps) ++ [x]))
    with (p ++ sep ++ join sep ((q :: ps) ++ [x])).
  rewrite IH by discriminate.
  change (join sep (p :: q :: ps)) with (p ++ sep ++ join sep (q :: ps)).
  now rewrite <- !app_assoc.
Qed.

Lemma sample_splitext_parts (p : text) :
  fst (path_splitext sample_os p) ++ snd (path_splitext sample_os p) = p.
Proof.
  unfold sample_os. cbn [path_splitext].
  pose proof (join_split (ch ".") p) as Hp.
  destruct (rev (split (ch ".") p)) as [|ext [|r root]] eqn:E;
    try apply app_nil_r.
  cbn [fst snd].
  apply (f_equal (@rev text)) in E. rewrite rev_involutive in E.
  rewrite <- Hp. rewrite E.
  change (rev (ext :: r :: root)) with (rev (r :: root) ++ [ext]).
  rewrite join_snoc; [reflexivity|].
  simpl. now destruct (rev root).
Defined.

Lemma main_never_overwrites_its_input_witness :
  ~ In (Loaded (str "/work/job_length_report_10.html"))
      (fst (main (sample_world (str "10")))).
Proof.
  refine (main_never_overwrites_its_input (sample_world (str "10"))
            (str "/work/job_length_report_10.html") _ sample_splitext_parts _).
  set (log := fst (main (sample_world (str "10")))).
  vm_compute in log. subst log. do 8 right. left. reflexivity.
Defined.

(** ** The buttons of a target cell *)

Lemma click_edit_twice (c : container) : click_edit (click_edit c) = c.
Proof. destruct c as [a h [|]]; reflexivity. Qed.

(** X17: clicking the edit button twice changes nothing, so an even number
    of clicks leaves the cell as it was; a reset gives the same cell
    whether or not the edit button was clicked before, and a second reset
    changes nothing more; a cell without the attribute keeps its text on
    reset and only has editing switched off. *)
Theorem buttons_compose (c : container) (n : nat) :
  Nat.iter (2 * n) click_edit c = c
  /\ click_reset (click_edit c) = click_reset c
  /\ click_reset (click_reset c) = click_reset c
  /\ (data_original_html_attr c = None ->
      click_reset c
      = {| data_original_html_attr := None;
           inner_html := inner_html c;
           contenteditable := false |}).
Proof.
  split; [|split; [|split]].
  - induction n as [|n IH]; [reflexivity|].
    replace (2 * S n)%nat with (S (S (2 * n))) by lia.
    simpl Nat.iter. simpl Nat.iter in IH. rewrite IH. apply click_edit_twice.
  - destruct c as [a h [|]]; reflexivity.
  - destruct c as [[a|] h e]; reflexivity.
  - intros H. destruct c as [a h e]. simpl in H. subst a. reflexivity.
Qed.

Lemma buttons_compose_witness :
  click_reset {| data_original_html_attr := None; inner_html := str "typed";
                 contenteditable := true |}
  = {| data_original_html_attr := None; inner_html := str "typed";
       contenteditable := false |}.
Proof.
  apply (proj2 (proj2 (proj2 (buttons_compose
           {| data_original_html_attr := None; inner_html := str "typed";
              contenteditable := true |} 1)))).
  reflexivity.
Defined.

(** ** The dependency check *)

(** X18: the dependency check returns the [Document] callable in two cases
    only: the first import gives it, or the first import fails, one of the
    two installations succeeds (the second is tried only after the first
    has failed) and the import after it gives the callable. *)
Theorem setup_returns_iff {E D : Type} (a : Setup.answers E D) (Document : D) :
  snd (Setup.ensure_python_docx a) = inr Document <->
  Setup.first_import a = inr Document
  \/ ((exists e, Setup.first_import a = inl e)
      /\ ((exists u, Setup.quiet_install a = inr u)
          \/ (exists e u, Setup.quiet_install a = inl e
                          /\ Setup.loud_install a = inr u))
      /\ Setup.second_import a = inr Document).
Proof.
  unfold Setup.ensure_python_docx.
  destruct (Setup.first_import a) as [e1|d1].
  - destruct (Setup.quiet_install a) as [e2|u2].
    + destruct (Setup.loud_install a) as [e3|u3]; simpl.
      * split; [discriminate|].
        intros [H|(_ & [(u & H)|(e & u & _ & H)] & _)]; discriminate.
      * destruct (Setup.second_import a) as [e4|d4]; simpl.
        -- split; [discriminate|]. intros [H|(_ & _ & H)]; discriminate.
        -- split.
           ++ intros H. right. split; [eauto|]. split; [|exact H].
              right. eauto.
           ++ intros [H|(_ & _ & H)]; [discriminate|exact H].
    + simpl. destruct (Setup.second_import a) as [e4|d4]; simpl.
      * split; [discriminate|]. intros [H|(_ & _ & H)]; discriminate.
      * split.
        -- intros H. right. split; [eauto|]. split; [|exact H]. left. eauto.
        -- intros [H|(_ & _ & H)]; [discriminate|exact H].
  - simpl. split; [now left|].
    intros [H|((e & H) & _)]; [exact H|discriminate].
Qed.

Lemma setup_returns_iff_witness :
  snd (Setup.ensure_python_docx
         {| Setup.first_import := inl ValueError;
            Setup.quiet_install := inl ValueError;
            Setup.loud_install := inr tt;
            Setup.second_import := inr 7%nat |}) = inr 7%nat.
Proof.
  apply (proj2 (setup_returns_iff _ 7%nat)). right.
  split; [exists ValueError; reflexivity|]. split; [|reflexivity].
  right. exists ValueError, tt. split; reflexivity.
Defined.


